(** * Inbox and thread synchronisation of the messaging pages

    A shallow embedding of the two messaging pages of the application,
    [Messages] (the inbox, "Conversation Index" and "Unread Counter" of the
    specification) and [Chat] (the open thread, "Thread Synchronizer" and
    "Message Sender"), together with the part of the document database they
    talk to.

    Conventions of the embedding:
    - a document is a record of its persisted fields; a field the pages
      guard against ([data.lastMessage || ''], [userData?.username]) is an
      [option];
    - a page is a state record (its [useState] cells) and its callbacks are
      computations in [Async], a state-and-rejection monad over the page
      state and the database: an [await] is a bind, a rejected promise is
      [Rejected], [try]/[catch] is [try_catch];
    - every database call is appended to the database's [log], whether it
      is fulfilled or rejected, and the database decides from its [faults]
      oracle (a function of the calls so far and the call at hand) whether
      the call rejects;
    - strings are Rocq strings holding text in UTF-8; [trim] strips the
      ASCII white space of its JavaScript original; [toLowerCase] is the
      host's: the pages take it through the class [Host], and
      [Unicode.toLower] gives the lower-casing of the Unicode standard,
      with its final-sigma rule, over the character data it is handed. *)

From Stdlib Require Import Ascii String.
From stdpp Require Import gmap strings list fin_maps pretty.

Open Scope string_scope.
Open Scope list_scope.

(** ** String primitives of the host language *)

Definition lower_ascii (c : ascii) : ascii :=
  let n := nat_of_ascii c in
  if (65 <=? n)%nat && (n <=? 90)%nat then ascii_of_nat (n + 32) else c.

(** The lower case of a string of ASCII characters: every letter from A
    to Z by its small letter. *)
Fixpoint lowerASCII (s : string) : string :=
  match s with
  | EmptyString => EmptyString
  | String c r => String (lower_ascii c) (lowerASCII r)
  end.

(** What the pages take from the host without this file settling it:
    [String.prototype.toLowerCase]. It follows the Unicode character
    database, may change the length of a string and looks at the context
    of a letter; what is proved of the pages for every [Host] holds of
    the host's own primitive. *)
Class Host : Type := { toLowerCase : string → string }.

(** [String.prototype.toUpperCase], on one character. *)
Definition upper_ascii (c : ascii) : ascii :=
  let n := nat_of_ascii c in
  if (97 <=? n)%nat && (n <=? 122)%nat then ascii_of_nat (n - 32) else c.

(** [String.prototype.startsWith] *)
Fixpoint startsWith (s t : string) : bool :=
  match t, s with
  | EmptyString, _ => true
  | String _ _, EmptyString => false
  | String b t', String a s' => bool_decide (a = b) && startsWith s' t'
  end.

(** [String.prototype.includes] *)
Fixpoint includes (s t : string) : bool :=
  startsWith s t ||
  match s with
  | EmptyString => false
  | String _ r => includes r t
  end.

(** White space and line terminators: TAB, LF, VT, FF, CR and SPACE. *)
Definition is_white (c : ascii) : bool :=
  let n := nat_of_ascii c in
  ((9 <=? n)%nat && (n <=? 13)%nat) || (n =? 32)%nat.

Fixpoint trimStart (s : string) : string :=
  match s with
  | EmptyString => EmptyString
  | String c r => if is_white c then trimStart r else s
  end.

Fixpoint trimEnd (s : string) : string :=
  match s with
  | EmptyString => EmptyString
  | String c r =>
      match trimEnd r with
      | EmptyString => if is_white c then EmptyString else String c EmptyString
      | r' => String c r'
      end
  end.

(** [String.prototype.trim] *)
Definition trim (s : string) : string := trimEnd (trimStart s).

(** Truthiness of a string: the empty string is the only falsy one. *)
Definition truthy (s : string) : bool :=
  match s with EmptyString => false | _ => true end.

(** [o || d] for an optional string field [o]: an absent field is
    [undefined], which is falsy like the empty string. *)
Definition or_else (o : option string) (d : string) : string :=
  match o with
  | Some s => if truthy s then s else d
  | None => d
  end.

(** ** Lower-casing by the Unicode standard *)

Module Unicode.

(** The character data lower-casing reads, by code point: the lower-case
    mapping (of UnicodeData and of the unconditional entries of
    SpecialCasing) and the properties Cased and Case_Ignorable. *)
Record Data : Type := {
  lowercase_mapping : N → list N;
  cased : N → bool;
  case_ignorable : N → bool
}.

(** The bytes of a string, and the string of some bytes. *)
Definition bytes (s : string) : list N :=
  map N_of_ascii (list_ascii_of_string s).

Definition text (l : list N) : string :=
  string_of_list_ascii (map ascii_of_N l).

Definition continuation (b : N) : bool := ((128 <=? b) && (b <? 192))%N.

(** A byte that belongs to no well-formed sequence stands for itself,
    above the code points. *)
Definition stray (b : N) : N := (1114112 + b)%N.

(** The code points of UTF-8 bytes. *)
Fixpoint decode (l : list N) : list N :=
  match l with
  | [] => []
  | b0 :: r0 =>
      if (b0 <? 128)%N then b0 :: decode r0
      else
        match r0 with
        | [] => stray b0 :: decode r0
        | b1 :: r1 =>
            if ((192 <=? b0) && (b0 <? 224))%N && continuation b1
            then ((b0 - 192) * 64 + (b1 - 128))%N :: decode r1
            else
              match r1 with
              | [] => stray b0 :: decode r0
              | b2 :: r2 =>
                  if ((224 <=? b0) && (b0 <? 240))%N && continuation b1
                     && continuation b2
                  then ((b0 - 224) * 4096 + (b1 - 128) * 64 + (b2 - 128))%N
                       :: decode r2
                  else
                    match r2 with
                    | [] => stray b0 :: decode r0
                    | b3 :: r3 =>
                        if ((240 <=? b0) && (b0 <? 248))%N && continuation b1
                           && continuation b2 && continuation b3
                        then ((b0 - 240) * 262144 + (b1 - 128) * 4096
                              + (b2 - 128) * 64 + (b3 - 128))%N :: decode r3
                        else stray b0 :: decode r0
                    end
              end
        end
  end.

(** The UTF-8 bytes of one code point, and of several. *)
Definition encode1 (c : N) : list N :=
  if (c <? 128)%N then [c]
  else if (c <? 2048)%N then [192 + c `div` 64; 128 + c `mod` 64]%N
  else if (c <? 65536)%N
  then [224 + c `div` 4096; 128 + (c `div` 64) `mod` 64; 128 + c `mod` 64]%N
  else if (c <? 1114112)%N
  then [240 + c `div` 262144; 128 + (c `div` 4096) `mod` 64;
        128 + (c `div` 64) `mod` 64; 128 + c `mod` 64]%N
  else [c - 1114112]%N.

Definition encode (l : list N) : list N := flat_map encode1 l.

(** Reading away from a letter: some case-ignorable characters, then a
    cased letter. *)
Fixpoint reaches_cased (d : Data) (l : list N) : bool :=
  match l with
  | [] => false
  | c :: r => cased d c || (case_ignorable d c && reaches_cased d r)
  end.

(** The condition Final_Sigma of the standard, for a letter with [before]
    in front of it, nearest first, and [after] behind it. *)
Definition final_sigma (d : Data) (before after : list N) : bool :=
  reaches_cased d before && negb (reaches_cased d after).

(** GREEK CAPITAL LETTER SIGMA and GREEK SMALL LETTER FINAL SIGMA. *)
Definition SIGMA : N := 931.
Definition FINAL_SIGMA : N := 962.

(** The lower case of code points, each read in its context. *)
Fixpoint lower (d : Data) (before l : list N) : list N :=
  match l with
  | [] => []
  | c :: r =>
      (if (c =? SIGMA)%N && final_sigma d before r then [FINAL_SIGMA]
       else lowercase_mapping d c)
      ++ lower d (c :: before) r
  end.

(** [String.prototype.toLowerCase] over the character data [d]. *)
Definition toLower (d : Data) (s : string) : string :=
  text (encode (lower d [] (decode (bytes s)))).

Definition js (d : Data) : Host := {| toLowerCase := toLower d |}.

Definition capital (c : N) : bool :=
  ((65 <=? c) && (c <=? 90))%N ||
  ((913 <=? c) && (c <=? 937) && negb (c =? 930))%N.

Definition small (c : N) : bool :=
  ((97 <=? c) && (c <=? 122))%N || ((945 <=? c) && (c <=? 969))%N.

(** The entries of the character database for Basic Latin and for the
    Greek capital and small letters; a code point outside them is taken
    as unmapped and uncased here. *)
Definition basic : Data :=
  {| lowercase_mapping := λ c, if capital c then [c + 32]%N else [c];
     cased := λ c, capital c || small c;
     case_ignorable :=
       λ c, bool_decide (c ∈ [39; 46; 58; 94; 96]%N) |}.

(** Character data that has the entries of Basic Latin right. *)
Definition basic_latin (d : Data) : Prop :=
  ∀ c, (c < 128)%N →
       lowercase_mapping d c
       = [if ((65 <=? c) && (c <=? 90))%N then (c + 32)%N else c].

End Unicode.

(** ** Promises *)

Inductive Error : Type :=
| TypeError        (* thrown by the host language or by [doc] on [undefined] *)
| FirestoreError.  (* a database call that rejects *)

Inductive Result (A : Type) : Type :=
| Fulfilled (a : A)
| Rejected (e : Error).
Arguments Fulfilled {A} a.
Arguments Rejected {A} e.

Definition is_rejected {A} (r : Result A) : bool :=
  match r with Rejected _ => true | Fulfilled _ => false end.

(** ** The document database

    The database client is a dependency of the pages, not part of them.
    Its calls are modelled after the contract the specification gives for
    the backend: [getOne], [getMany], [append], [upsertMerge] and
    [updateFields]. *)

Module Firestore.

(** Documents of the [users] collection, as far as the pages read them. *)
Record UserDoc : Type := {
  username : option string;
  avatarUrl : option string
}.

(** Documents of the [conversations] collection. *)
Record ConversationDoc : Type := {
  participants : option (list string);
  lastMessage : option string;
  lastMessageTime : option nat
}.

(** Documents of the [messages] collection. *)
Record MessageDoc : Type := {
  conversationId : string;
  senderId : string;
  receiverId : string;
  text : string;
  read : bool;
  createdAt : nat
}.

(** A time field of a write: a given time or the [serverTimestamp()]
    sentinel, which the database replaces by its clock at commit. *)
Inductive TimeField : Type :=
| At (t : nat)
| ServerTimestamp.

(** The fields handed to [addDoc(collection(db, 'messages'), ...)]. *)
Record NewMessage : Type := {
  new_conversationId : string;
  new_senderId : string;
  new_receiverId : string;
  new_text : string;
  new_read : bool;
  new_createdAt : TimeField
}.

(** The fields handed to [setDoc(doc(db, 'conversations', id), ...,
    {merge: true})]: a field that is not given is [None]. *)
Record ConversationPatch : Type := {
  set_participants : option (list string);
  set_lastMessage : option string;
  set_lastMessageTime : option TimeField
}.

(** The fields handed to [updateDoc(doc(db, 'messages', id), ...)]. *)
Record MessagePatch : Type := {
  upd_conversationId : option string;
  upd_senderId : option string;
  upd_receiverId : option string;
  upd_text : option string;
  upd_read : option bool;
  upd_createdAt : option TimeField
}.

(** One [where(field, '==', value)] clause on the [messages] collection. *)
Inductive Where : Type :=
| WhereConversationId (v : string)
| WhereReceiverId (v : string)
| WhereRead (v : bool).

(** The calls the pages issue. *)
Inductive Call : Type :=
| GetUser (id : string)
| GetConversation (id : string)
| GetMessages (q : list Where)
| AddMessage (fields : NewMessage)
| SetConversationMerge (id : string) (fields : ConversationPatch)
| UpdateMessage (id : string) (fields : MessagePatch).

Definition is_write (c : Call) : bool :=
  match c with
  | AddMessage _ | SetConversationMerge _ _ | UpdateMessage _ _ => true
  | _ => false
  end.

Record Backend : Type := {
  users : gmap string UserDoc;
  conversations : gmap string ConversationDoc;
  messages : gmap string MessageDoc;
  clock : nat;                       (* the server's time *)
  faults : list Call → Call → bool;  (* does this call reject, after those? *)
  log : list Call                    (* the calls issued so far *)
}.

Definition record (c : Call) (b : Backend) : Backend :=
  {| users := users b; conversations := conversations b;
     messages := messages b; clock := clock b; faults := faults b;
     log := log b ++ [c] |}.

Definition with_messages (m : gmap string MessageDoc) (b : Backend) : Backend :=
  {| users := users b; conversations := conversations b;
     messages := m; clock := S (clock b); faults := faults b;
     log := log b |}.

Definition with_conversations (m : gmap string ConversationDoc) (b : Backend)
  : Backend :=
  {| users := users b; conversations := m;
     messages := messages b; clock := S (clock b); faults := faults b;
     log := log b |}.

Definition resolve (now : nat) (t : TimeField) : nat :=
  match t with At n => n | ServerTimestamp => now end.

Definition matches (d : MessageDoc) (w : Where) : bool :=
  match w with
  | WhereConversationId v => bool_decide (conversationId d = v)
  | WhereReceiverId v => bool_decide (receiverId d = v)
  | WhereRead v => bool_decide (read d = v)
  end.

Definition create (now : nat) (f : NewMessage) : MessageDoc :=
  {| conversationId := new_conversationId f;
     senderId := new_senderId f;
     receiverId := new_receiverId f;
     text := new_text f;
     read := new_read f;
     createdAt := resolve now (new_createdAt f) |}.

Definition no_conversation : ConversationDoc :=
  {| participants := None; lastMessage := None; lastMessageTime := None |}.

(** A given field replaces the stored one, a field that is not given
    keeps it. *)
Definition over {A} (given : option A) (stored : option A) : option A :=
  match given with Some _ => given | None => stored end.

Definition merge (now : nat) (p : ConversationPatch) (d : ConversationDoc)
  : ConversationDoc :=
  {| participants := over (set_participants p) (participants d);
     lastMessage := over (set_lastMessage p) (lastMessage d);
     lastMessageTime :=
       over (resolve now <$> set_lastMessageTime p) (lastMessageTime d) |}.

Definition update (now : nat) (p : MessagePatch) (d : MessageDoc) : MessageDoc :=
  {| conversationId := default (conversationId d) (upd_conversationId p);
     senderId := default (senderId d) (upd_senderId p);
     receiverId := default (receiverId d) (upd_receiverId p);
     text := default (text d) (upd_text p);
     read := default (read d) (upd_read p);
     createdAt := default (createdAt d) (resolve now <$> upd_createdAt p) |}.

End Firestore.

(** ** Asynchronous computations of a page with state [U] *)

Definition Async (U A : Type) : Type :=
  U → Firestore.Backend → Result A * U * Firestore.Backend.

Definition resolved {U A} (a : A) : Async U A :=
  λ u b, (Fulfilled a, u, b).

Definition throw {U A} (e : Error) : Async U A :=
  λ u b, (Rejected e, u, b).

Definition await {U A B} (m : Async U A) (k : A → Async U B) : Async U B :=
  λ u b,
    match m u b with
    | (Fulfilled a, u', b') => k a u' b'
    | (Rejected e, u', b') => (Rejected e, u', b')
    end.

#[global] Instance Async_ret {U} : MRet (Async U) := λ A, @resolved U A.
#[global] Instance Async_bind {U} : MBind (Async U) := λ A B k m, await m k.

(** [try { body } catch (error) { handler }] *)
Definition try_catch {U A} (body : Async U A) (handler : Error → Async U A)
  : Async U A :=
  λ u b,
    match body u b with
    | (Fulfilled a, u', b') => (Fulfilled a, u', b')
    | (Rejected e, u', b') => handler e u' b'
    end.

(** A [useState] setter. *)
Definition setState {U} (f : U → U) : Async U unit :=
  λ u b, (Fulfilled tt, f u, b).

(** [Promise.all]: every promise runs to its end, whatever the others do;
    the join is fulfilled with all values when all are, and rejected when
    one is. The promises are run one after the other, in the order of the
    list: one of the interleavings the event loop allows. Which rejection
    the join reports when several promises reject depends on the
    interleaving; the properties below only tell fulfilled from
    rejected. *)
Fixpoint promise_all {U A} (ps : list (Async U A)) : Async U (list A) :=
  match ps with
  | [] => resolved []
  | p :: rest =>
      λ u b,
        let '(r, u1, b1) := p u b in
        let '(rs, u2, b2) := promise_all rest u1 b1 in
        (match r, rs with
         | Fulfilled a, Fulfilled l => Fulfilled (a :: l)
         | Rejected e, _ => Rejected e
         | Fulfilled _, Rejected e => Rejected e
         end, u2, b2)
  end.

(** [for (const x of xs) { await body(x) }] *)
Fixpoint for_of {U A} (xs : list A) (body : A → Async U unit) : Async U unit :=
  match xs with
  | [] => resolved tt
  | x :: rest => _ ← body x; for_of rest body
  end.

(** ** The calls of the database client *)

(** A call is logged, then rejects when the oracle says so, and commits
    otherwise. *)
Definition call {U A} (c : Firestore.Call)
    (commit : Firestore.Backend → Result A * Firestore.Backend) : Async U A :=
  λ u b,
    let b1 := Firestore.record c b in
    if Firestore.faults b (Firestore.log b) c
    then (Rejected FirestoreError, u, b1)
    else let '(r, b2) := commit b1 in (r, u, b2).

(** [doc(db, collection, id)]: a document reference; it throws when the
    identifier is [undefined]. *)
Definition doc {U} (id : option string) : Async U string :=
  match id with
  | Some i => resolved i
  | None => throw TypeError
  end.

(** Modelled from the spec: [getOne(collection, id) -> record | absent],
    a one-shot point-in-time read; here [getDoc(doc(db, 'users', id))]. *)
Definition getDoc_users {U} (id : string) : Async U (option Firestore.UserDoc) :=
  call (Firestore.GetUser id)
       (λ b, (Fulfilled (Firestore.users b !! id), b)).

(** Modelled from the spec: [getOne(collection, id) -> record | absent];
    here [getDoc(doc(db, 'conversations', id))]. *)
Definition getDoc_conversations {U} (id : string)
  : Async U (option Firestore.ConversationDoc) :=
  call (Firestore.GetConversation id)
       (λ b, (Fulfilled (Firestore.conversations b !! id), b)).

(** Modelled from the spec: [getMany(predicate) -> record-set], a one-shot
    point-in-time read of all matches; here [getDocs(query(collection(db,
    'messages'), where(..), ..))], the documents all clauses hold of. *)
Definition getDocs_messages {U} (q : list Firestore.Where)
  : Async U (list (string * Firestore.MessageDoc)) :=
  call (Firestore.GetMessages q)
       (λ b, (Fulfilled
                (map_to_list
                   (filter (λ kv, Is_true (forallb (Firestore.matches kv.2) q))
                           (Firestore.messages b))), b)).

(** Modelled from the spec: [append(collection, fields) -> new id], a
    one-shot write; the server assigns the identifier and the fields
    requested as server time. *)
Definition addDoc_messages {U} (fields : Firestore.NewMessage) : Async U string :=
  call (Firestore.AddMessage fields)
       (λ b,
          let id := fresh (dom (Firestore.messages b)) in
          (Fulfilled id,
           Firestore.with_messages
             (<[id := Firestore.create (Firestore.clock b) fields]>
                (Firestore.messages b)) b)).

(** Modelled from the spec: [upsertMerge(collection, id, fields)], a
    one-shot write; creates the record if absent, otherwise merges the
    given fields over the existing ones, leaving unspecified fields
    untouched. *)
Definition setDoc_merge_conversations {U} (id : string)
    (fields : Firestore.ConversationPatch) : Async U unit :=
  call (Firestore.SetConversationMerge id fields)
       (λ b,
          (Fulfilled tt,
           Firestore.with_conversations
             (<[id := Firestore.merge (Firestore.clock b) fields
                        (default Firestore.no_conversation
                                 (Firestore.conversations b !! id))]>
                (Firestore.conversations b)) b)).

(** Modelled from the spec: [updateFields(collection, id, fields)], a
    one-shot write; fails if the record does not exist. *)
Definition updateDoc_messages {U} (id : string) (fields : Firestore.MessagePatch)
  : Async U unit :=
  call (Firestore.UpdateMessage id fields)
       (λ b,
          match Firestore.messages b !! id with
          | Some d =>
              (Fulfilled tt,
               Firestore.with_messages
                 (<[id := Firestore.update (Firestore.clock b) fields d]>
                    (Firestore.messages b)) b)
          | None => (Rejected FirestoreError, b)
          end).

(** ** The inbox page *)

Module Messages.

(** [interface Conversation]: an entry of the inbox. *)
Record Conversation : Type := {
  id : string;
  participants : list string;
  lastMessage : string;
  lastMessageTime : option nat;
  otherUserId : string;
  otherUserName : string;
  otherUserAvatar : string;
  unreadCount : nat
}.

(** The [useState] cells of the page. *)
Record State : Type := {
  conversations : list Conversation;
  loading : bool;
  searchTerm : string
}.

Definition initial : State :=
  {| conversations := []; loading := true; searchTerm := "" |}.

Definition setConversations (l : list Conversation) : Async State unit :=
  setState (λ s, {| conversations := l; loading := loading s;
                    searchTerm := searchTerm s |}).

Definition setLoading (v : bool) : Async State unit :=
  setState (λ s, {| conversations := conversations s; loading := v;
                    searchTerm := searchTerm s |}).

Definition setSearchTerm (v : string) : Async State unit :=
  setState (λ s, {| conversations := conversations s; loading := loading s;
                    searchTerm := v |}).

(** [data.participants.find((id) => id !== user.uid)] *)
Definition otherParticipant (uid : string) (participants : list string)
  : option string :=
  find (λ id, bool_decide (id ≠ uid)) participants.

(** [data.participants] of a conversation document; calling [find] on an
    absent field throws. *)
Definition participantsOf {U} (data : Firestore.ConversationDoc)
  : Async U (list string) :=
  match Firestore.participants data with
  | Some l => resolved l
  | None => throw TypeError
  end.

(** The query that counts the unread messages of a conversation. *)
Definition messagesQuery (uid conversationId : string) : list Firestore.Where :=
  [Firestore.WhereConversationId conversationId;
   Firestore.WhereReceiverId uid;
   Firestore.WhereRead false].

(** The asynchronous callback mapped over [snapshot.docs]: it resolves one
    conversation document to its inbox entry. *)
Definition resolveConversation (uid : string)
    (conversationDoc : string * Firestore.ConversationDoc)
  : Async State Conversation :=
  let data := conversationDoc.2 in
  participants ← participantsOf data;
  let otherUserId := otherParticipant uid participants in
  (* Fetch other user's info *)
  ref ← doc otherUserId;
  userData ← getDoc_users ref;
  (* Count unread messages *)
  unreadSnapshot ← getDocs_messages (messagesQuery uid conversationDoc.1);
  mret {| id := conversationDoc.1;
          participants := participants;
          lastMessage := or_else (Firestore.lastMessage data) "";
          lastMessageTime := Firestore.lastMessageTime data;
          otherUserId := ref;
          otherUserName := or_else (userData ≫= Firestore.username) "Unknown";
          otherUserAvatar := or_else (userData ≫= Firestore.avatarUrl) "";
          unreadCount := length unreadSnapshot |}.

(** The callback of [onSnapshot(conversationsQuery, ...)]. *)
Definition onConversationsSnapshot (uid : string)
    (snapshot : list (string * Firestore.ConversationDoc)) : Async State unit :=
  conversationsData ← promise_all (map (resolveConversation uid) snapshot);
  _ ← setConversations conversationsData;
  setLoading false.

(** [const filteredConversations = conversations.filter(...)] *)
Definition filteredConversations `{Host} (s : State) : list Conversation :=
  filter (λ conv, Is_true (includes (toLowerCase (otherUserName conv))
                                    (toLowerCase (searchTerm s))))
         (conversations s).

(** [const getTimeAgo = (timestamp: any) => ...]. A timestamp that has
    [toDate] is given by [toDate().getTime()], and [now] is
    [new Date().getTime()], both in milliseconds; a number is printed in
    decimal, as a template literal prints an integer. *)
Definition getTimeAgo (now : Z) (timestamp : option Z) : string :=
  match timestamp with
  | None => ""
  | Some messageDate =>
      let diffInSeconds := ((now - messageDate) `div` 1000)%Z in
      if (diffInSeconds <? 60)%Z then "just now"
      else if (diffInSeconds <? 3600)%Z
      then pretty (diffInSeconds `div` 60)%Z +:+ "m"
      else if (diffInSeconds <? 86400)%Z
      then pretty (diffInSeconds `div` 3600)%Z +:+ "h"
      else if (diffInSeconds <? 604800)%Z
      then pretty (diffInSeconds `div` 86400)%Z +:+ "d"
      else pretty (diffInSeconds `div` 604800)%Z +:+ "w"
  end.

(** The avatar of a row: the image, or the initial of the name. *)
Inductive Avatar : Type :=
| AvatarImage (src alt : string)
| AvatarInitial (initial : option ascii).

(** [conversation.otherUserAvatar ? <img .../> :
    <span>{conversation.otherUserName[0]?.toUpperCase()}</span>] *)
Definition avatar (conversation : Conversation) : Avatar :=
  if truthy (otherUserAvatar conversation)
  then AvatarImage (otherUserAvatar conversation) (otherUserName conversation)
  else AvatarInitial
         match otherUserName conversation with
         | String c _ => Some (upper_ascii c)
         | EmptyString => None
         end.

(** [conversation.unreadCount > 0 && (... conversation.unreadCount > 9 ?
    '9+' : conversation.unreadCount ...)]: the unread badge, if shown. *)
Definition unreadBadge (conversation : Conversation) : option string :=
  if (0 <? unreadCount conversation)%nat
  then Some (if (9 <? unreadCount conversation)%nat then "9+"
             else pretty (unreadCount conversation))
  else None.

(** One row of the list, as the page renders it. *)
Record Row : Type := {
  to : string;
  row_avatar : Avatar;
  row_name : string;
  row_time : string;
  row_preview : string;
  row_highlighted : bool;
  row_badge : option string
}.

(** The body of [filteredConversations.map((conversation, index) => ...)],
    rendered at time [now]. *)
Definition row (now : Z) (conversation : Conversation) : Row :=
  {| to := "/chat/" +:+ id conversation;
     row_avatar := avatar conversation;
     row_name := otherUserName conversation;
     row_time := getTimeAgo now (Z.of_nat <$> lastMessageTime conversation);
     row_preview := or_else (Some (lastMessage conversation)) "Start chatting...";
     row_highlighted := (0 <? unreadCount conversation)%nat;
     row_badge := unreadBadge conversation |}.

(** What the page shows: its spinner, the "No messages yet" card, or the
    list of conversations. *)
Inductive View : Type :=
| Spinner
| NoMessages
| Rows (rows : list Row).

(** The [return] of the component. *)
Definition view `{Host} (now : Z) (s : State) : View :=
  if loading s then Spinner
  else if bool_decide (length (filteredConversations s) = 0) then NoMessages
  else Rows (map (row now) (filteredConversations s)).

End Messages.

(** ** The thread page *)

Module Chat.

(** [interface Message] *)
Record Message : Type := {
  id : string;
  senderId : string;
  receiverId : string;
  text : string;
  createdAt : nat;
  read : bool
}.

Module OtherUser.
(** [interface OtherUser] *)
Record t : Type := {
  id : string;
  username : string;
  avatarUrl : string
}.
End OtherUser.

(** An argument of [toast]. *)
Record Toast : Type := {
  title : string;
  description : string;
  variant : string
}.

(** The [useState] cells of the page, the toasts it has raised and the
    routes it has navigated to. *)
Record State : Type := {
  messages : list Message;
  newMessage : string;
  otherUser : option OtherUser.t;
  loading : bool;
  toasts : list Toast;
  navigated : list string
}.

Definition initial : State :=
  {| messages := []; newMessage := ""; otherUser := None; loading := true;
     toasts := []; navigated := [] |}.

Definition setMessages (v : list Message) : Async State unit :=
  setState (λ s, {| messages := v; newMessage := newMessage s;
                    otherUser := otherUser s; loading := loading s;
                    toasts := toasts s; navigated := navigated s |}).

Definition setNewMessage (v : string) : Async State unit :=
  setState (λ s, {| messages := messages s; newMessage := v;
                    otherUser := otherUser s; loading := loading s;
                    toasts := toasts s; navigated := navigated s |}).

Definition setOtherUser (v : option OtherUser.t) : Async State unit :=
  setState (λ s, {| messages := messages s; newMessage := newMessage s;
                    otherUser := v; loading := loading s;
                    toasts := toasts s; navigated := navigated s |}).

Definition setLoading (v : bool) : Async State unit :=
  setState (λ s, {| messages := messages s; newMessage := newMessage s;
                    otherUser := otherUser s; loading := v;
                    toasts := toasts s; navigated := navigated s |}).

Definition toast (v : Toast) : Async State unit :=
  setState (λ s, {| messages := messages s; newMessage := newMessage s;
                    otherUser := otherUser s; loading := loading s;
                    toasts := toasts s ++ [v]; navigated := navigated s |}).

Definition navigate (route : string) : Async State unit :=
  setState (λ s, {| messages := messages s; newMessage := newMessage s;
                    otherUser := otherUser s; loading := loading s;
                    toasts := toasts s; navigated := navigated s ++ [route] |}).

(** [const loadConversation = async () => { ... }] *)
Definition loadConversation (uid conversationId : string) : Async State unit :=
  try_catch
    ((* Get conversation to find other user *)
     conversationDoc ← getDoc_conversations conversationId;
     match conversationDoc with
     | None =>
         _ ← toast {| title := "Error";
                      description := "Conversation not found";
                      variant := "destructive" |};
         navigate "/messages"
     | Some conversationData =>
         participants ← Messages.participantsOf conversationData;
         let otherUserId := Messages.otherParticipant uid participants in
         (* Get other user's info *)
         ref ← doc otherUserId;
         userDoc ← getDoc_users ref;
         _ ← match userDoc with
             | Some userData =>
                 setOtherUser
                   (Some {| OtherUser.id := ref;
                            OtherUser.username :=
                              or_else (Firestore.username userData) "Unknown";
                            OtherUser.avatarUrl :=
                              or_else (Firestore.avatarUrl userData) "" |})
             | None => resolved tt
             end;
         setLoading false
     end)
    (λ error, setLoading false).

(** [{ id: doc.id, ...doc.data() } as Message] *)
Definition asMessage (d : string * Firestore.MessageDoc) : Message :=
  {| id := d.1;
     senderId := Firestore.senderId d.2;
     receiverId := Firestore.receiverId d.2;
     text := Firestore.text d.2;
     createdAt := Firestore.createdAt d.2;
     read := Firestore.read d.2 |}.

(** The fields of [updateDoc(.., { read: true })]. *)
Definition readTrue : Firestore.MessagePatch :=
  {| Firestore.upd_conversationId := None;
     Firestore.upd_senderId := None;
     Firestore.upd_receiverId := None;
     Firestore.upd_text := None;
     Firestore.upd_read := Some true;
     Firestore.upd_createdAt := None |}.

(** [messagesData.filter((msg) => msg.receiverId === user.uid && !msg.read)] *)
Definition unreadMessages (uid : string) (messagesData : list Message)
  : list Message :=
  filter (λ msg, Is_true (bool_decide (receiverId msg = uid) && negb (read msg)))
         messagesData.

(** The callback of [onSnapshot(messagesQuery, ...)]. *)
Definition onMessagesSnapshot (uid : string)
    (snapshot : list (string * Firestore.MessageDoc)) : Async State unit :=
  let messagesData := map asMessage snapshot in
  _ ← setMessages messagesData;
  (* Mark messages as read *)
  for_of (unreadMessages uid messagesData)
         (λ msg, updateDoc_messages (id msg) readTrue).

(** The fields of the [addDoc] of a send. *)
Definition messageFields (conversationId uid receiver text : string)
  : Firestore.NewMessage :=
  {| Firestore.new_conversationId := conversationId;
     Firestore.new_senderId := uid;
     Firestore.new_receiverId := receiver;
     Firestore.new_text := text;
     Firestore.new_read := false;
     Firestore.new_createdAt := Firestore.ServerTimestamp |}.

(** The fields of the [setDoc] of a send. *)
Definition summaryFields (text : string) : Firestore.ConversationPatch :=
  {| Firestore.set_participants := None;
     Firestore.set_lastMessage := Some text;
     Firestore.set_lastMessageTime := Some Firestore.ServerTimestamp |}.

(** [const handleSendMessage = async (e) => { ... }]; [user] is the signed-in
    actor's identifier, if any, and [conversationId] the route parameter. *)
Definition handleSendMessage (user conversationId : option string)
  : Async State unit :=
  λ s,
    match user, otherUser s, conversationId with
    | Some uid, Some other, Some cid =>
        if negb (truthy (trim (newMessage s))) || negb (truthy cid)
        then resolved tt s
        else
          try_catch
            ((* Add message *)
             _ ← addDoc_messages
                   (messageFields cid uid (OtherUser.id other)
                                  (trim (newMessage s)));
             (* Update conversation *)
             _ ← setDoc_merge_conversations cid
                   (summaryFields (trim (newMessage s)));
             setNewMessage "")
            (λ error,
               toast {| title := "Error";
                        description := "Failed to send message";
                        variant := "destructive" |}) s
    | _, _, _ => resolved tt s
    end.

(** The states of an open thread, read off the page: it has left for the
    inbox ([NotFound]), it still shows its spinner ([Loading]), or it shows
    the thread ([Ready]). *)
Inductive Thread : Type := Loading | Ready | NotFound.

Definition thread (s : State) : Thread :=
  match navigated s with
  | _ :: _ => NotFound
  | [] => if loading s then Loading else Ready
  end.

(** [const isOwnMessage = message.senderId === user?.uid] *)
Definition isOwnMessage (user : option string) (message : Message) : bool :=
  bool_decide (Some (senderId message) = user).

(** [disabled={!newMessage.trim()}] on the send button. *)
Definition sendDisabled (s : State) : bool :=
  negb (truthy (trim (newMessage s))).

End Chat.

(** * Vocabulary of the properties *)

(** [s] contains [t] as a substring. *)
Definition contains (s t : string) : Prop :=
  ∃ pre post, s = pre +:+ t +:+ post.

(** A string of ASCII characters only. *)
Fixpoint is_ascii (s : string) : bool :=
  match s with
  | EmptyString => true
  | String c r => (N_of_ascii c <? 128)%N && is_ascii r
  end.

(** [name] contains [term] as a substring, up to the case of the letters
    from A to Z. *)
Definition contains_nocase (name term : string) : Prop :=
  ∃ pre sub post,
    name = pre +:+ sub +:+ post ∧ lowerASCII sub = lowerASCII term.

(** The stores, the clock and the oracle are the same in [b'] as in [b]. *)
Definition same_stores (b b' : Firestore.Backend) : Prop :=
  Firestore.users b' = Firestore.users b ∧
  Firestore.conversations b' = Firestore.conversations b ∧
  Firestore.messages b' = Firestore.messages b ∧
  Firestore.clock b' = Firestore.clock b ∧
  Firestore.faults b' = Firestore.faults b.

(** The oracle rejects no call. *)
Definition no_faults (b : Firestore.Backend) : Prop :=
  ∀ h c, Firestore.faults b h c = false.

(** The documents the count query of the inbox selects from a store. *)
Definition unreadDocs (store : gmap string Firestore.MessageDoc)
    (uid conversationId : string) : list (string * Firestore.MessageDoc) :=
  map_to_list
    (filter (λ kv, Is_true (forallb (Firestore.matches kv.2)
                                    (Messages.messagesQuery uid conversationId)))
            store).

(** The entry a conversation document resolves to when nothing rejects. *)
Definition entryOf (b : Firestore.Backend) (uid : string)
    (cd : string * Firestore.ConversationDoc) (l : list string) (oid : string)
  : Messages.Conversation :=
  {| Messages.id := cd.1;
     Messages.participants := l;
     Messages.lastMessage := or_else (Firestore.lastMessage cd.2) "";
     Messages.lastMessageTime := Firestore.lastMessageTime cd.2;
     Messages.otherUserId := oid;
     Messages.otherUserName :=
       or_else (Firestore.users b !! oid ≫= Firestore.username) "Unknown";
     Messages.otherUserAvatar :=
       or_else (Firestore.users b !! oid ≫= Firestore.avatarUrl) "";
     Messages.unreadCount := length (unreadDocs (Firestore.messages b) uid cd.1) |}.

(** The outcome of resolving one conversation document, case by case. *)
Inductive resolution (uid : string) (cd : string * Firestore.ConversationDoc)
    (b : Firestore.Backend)
  : Result Messages.Conversation → list Firestore.Call → Prop :=
| res_no_participants :
    Firestore.participants cd.2 = None →
    resolution uid cd b (Rejected TypeError) []
| res_no_other l :
    Firestore.participants cd.2 = Some l →
    Messages.otherParticipant uid l = None →
    resolution uid cd b (Rejected TypeError) []
| res_profile_rejected l oid :
    Firestore.participants cd.2 = Some l →
    Messages.otherParticipant uid l = Some oid →
    Firestore.faults b (Firestore.log b) (Firestore.GetUser oid) = true →
    resolution uid cd b (Rejected FirestoreError) [Firestore.GetUser oid]
| res_count_rejected l oid :
    Firestore.participants cd.2 = Some l →
    Messages.otherParticipant uid l = Some oid →
    Firestore.faults b (Firestore.log b) (Firestore.GetUser oid) = false →
    Firestore.faults b (Firestore.log b ++ [Firestore.GetUser oid])
      (Firestore.GetMessages (Messages.messagesQuery uid cd.1)) = true →
    resolution uid cd b (Rejected FirestoreError)
      [Firestore.GetUser oid;
       Firestore.GetMessages (Messages.messagesQuery uid cd.1)]
| res_fulfilled l oid :
    Firestore.participants cd.2 = Some l →
    Messages.otherParticipant uid l = Some oid →
    Firestore.faults b (Firestore.log b) (Firestore.GetUser oid) = false →
    Firestore.faults b (Firestore.log b ++ [Firestore.GetUser oid])
      (Firestore.GetMessages (Messages.messagesQuery uid cd.1)) = false →
    resolution uid cd b (Fulfilled (entryOf b uid cd l oid))
      [Firestore.GetUser oid;
       Firestore.GetMessages (Messages.messagesQuery uid cd.1)].

(** A conversation document resolves to [e] when the oracle of [b] lets
    both of its reads through after some calls. *)
Definition resolves_to (b : Firestore.Backend) (uid : string)
    (cd : string * Firestore.ConversationDoc) (e : Messages.Conversation)
  : Prop :=
  ∃ l oid h h',
    Firestore.participants cd.2 = Some l ∧
    Messages.otherParticipant uid l = Some oid ∧
    Firestore.faults b h (Firestore.GetUser oid) = false ∧
    Firestore.faults b h'
      (Firestore.GetMessages (Messages.messagesQuery uid cd.1)) = false ∧
    e = entryOf b uid cd l oid.

(** The page state after a fulfilled join. *)
Definition emitted (s : Messages.State) (es : list Messages.Conversation)
  : Messages.State :=
  {| Messages.conversations := es; Messages.loading := false;
     Messages.searchTerm := Messages.searchTerm s |}.

(** The number of messages of conversation [C] addressed to [A] and not
    read, in a message store. *)
Definition unread (store : gmap string Firestore.MessageDoc) (A C : string)
  : nat :=
  size (filter (λ kv, Firestore.conversationId kv.2 = C ∧
                      Firestore.receiverId kv.2 = A ∧
                      Firestore.read kv.2 = false) store).

(** ** A small database to run the pages on *)

Module Scenario.

Definition bobProfile : Firestore.UserDoc :=
  {| Firestore.username := Some "Bob"; Firestore.avatarUrl := None |}.

(** Alice talks to Bob in [c1] and to Carol, who has no profile record,
    in [c2]. *)
Definition c1 : Firestore.ConversationDoc :=
  {| Firestore.participants := Some ["alice"; "bob"];
     Firestore.lastMessage := Some "hi";
     Firestore.lastMessageTime := Some 2 |}.

Definition c2 : Firestore.ConversationDoc :=
  {| Firestore.participants := Some ["carol"; "alice"];
     Firestore.lastMessage := None;
     Firestore.lastMessageTime := None |}.

Definition message (conversation sender receiver text : string) (read : bool)
    (time : nat) : Firestore.MessageDoc :=
  {| Firestore.conversationId := conversation;
     Firestore.senderId := sender;
     Firestore.receiverId := receiver;
     Firestore.text := text;
     Firestore.read := read;
     Firestore.createdAt := time |}.

Definition m0 := message "c1" "bob" "alice" "old" true 0.
Definition m1 := message "c1" "bob" "alice" "hello" false 1.
Definition m2 := message "c1" "alice" "bob" "hi" false 2.

Definition backend : Firestore.Backend :=
  {| Firestore.users := {[ "bob" := bobProfile ]};
     Firestore.conversations := <[ "c1" := c1 ]> {[ "c2" := c2 ]};
     Firestore.messages := <[ "m0" := m0 ]> (<[ "m1" := m1 ]> {[ "m2" := m2 ]});
     Firestore.clock := 3;
     Firestore.faults := λ _ _, false;
     Firestore.log := [] |}.

(** The same database behind a connection that rejects the lookups of
    Bob's profile. *)
Definition profileDown : Firestore.Backend :=
  {| Firestore.users := Firestore.users backend;
     Firestore.conversations := Firestore.conversations backend;
     Firestore.messages := Firestore.messages backend;
     Firestore.clock := Firestore.clock backend;
     Firestore.faults :=
       λ _ c, match c with
              | Firestore.GetUser id => String.eqb id "bob"
              | _ => false
              end;
     Firestore.log := [] |}.

(** The same database behind a connection that rejects every write. *)
Definition readOnly : Firestore.Backend :=
  {| Firestore.users := Firestore.users backend;
     Firestore.conversations := Firestore.conversations backend;
     Firestore.messages := Firestore.messages backend;
     Firestore.clock := Firestore.clock backend;
     Firestore.faults := λ _ c, Firestore.is_write c;
     Firestore.log := [] |}.

(** Alice's inbox snapshot and the snapshot of the thread [c1]. *)
Definition inbox : list (string * Firestore.ConversationDoc) :=
  [("c1", c1); ("c2", c2)].

Definition thread : list (string * Firestore.MessageDoc) :=
  [("m0", m0); ("m1", m1); ("m2", m2)].

End Scenario.

(** ** Outcomes of opening a thread *)

(** The page once it shows the thread, exposing [other]. *)
Definition shown (s : Chat.State) (other : option Chat.OtherUser.t)
  : Chat.State :=
  {| Chat.messages := Chat.messages s; Chat.newMessage := Chat.newMessage s;
     Chat.otherUser := other; Chat.loading := false;
     Chat.toasts := Chat.toasts s; Chat.navigated := Chat.navigated s |}.

(** The page once it has left for the inbox. *)
Definition left (s : Chat.State) : Chat.State :=
  {| Chat.messages := Chat.messages s; Chat.newMessage := Chat.newMessage s;
     Chat.otherUser := Chat.otherUser s; Chat.loading := Chat.loading s;
     Chat.toasts :=
       Chat.toasts s ++ [ {| Chat.title := "Error";
                             Chat.description := "Conversation not found";
                             Chat.variant := "destructive" |} ];
     Chat.navigated := Chat.navigated s ++ ["/messages"] |}.

(** The other participant as a profile record exposes them. *)
Definition exposed (oid : string) (userData : Firestore.UserDoc)
  : Chat.OtherUser.t :=
  {| Chat.OtherUser.id := oid;
     Chat.OtherUser.username := or_else (Firestore.username userData) "Unknown";
     Chat.OtherUser.avatarUrl := or_else (Firestore.avatarUrl userData) "" |}.

(** The outcome of [loadConversation], case by case: the page state it
    leaves and the calls it issues. *)
Inductive loaded (uid cid : string) (s : Chat.State) (b : Firestore.Backend)
  : Chat.State → list Firestore.Call → Prop :=
| load_rejected :
    Firestore.faults b (Firestore.log b) (Firestore.GetConversation cid) = true →
    loaded uid cid s b (shown s (Chat.otherUser s)) [Firestore.GetConversation cid]
| load_not_found :
    Firestore.faults b (Firestore.log b) (Firestore.GetConversation cid) = false →
    Firestore.conversations b !! cid = None →
    loaded uid cid s b (left s) [Firestore.GetConversation cid]
| load_no_participants data :
    Firestore.faults b (Firestore.log b) (Firestore.GetConversation cid) = false →
    Firestore.conversations b !! cid = Some data →
    Firestore.participants data = None →
    loaded uid cid s b (shown s (Chat.otherUser s)) [Firestore.GetConversation cid]
| load_no_other data l :
    Firestore.faults b (Firestore.log b) (Firestore.GetConversation cid) = false →
    Firestore.conversations b !! cid = Some data →
    Firestore.participants data = Some l →
    Messages.otherParticipant uid l = None →
    loaded uid cid s b (shown s (Chat.otherUser s)) [Firestore.GetConversation cid]
| load_profile_rejected data l oid :
    Firestore.faults b (Firestore.log b) (Firestore.GetConversation cid) = false →
    Firestore.conversations b !! cid = Some data →
    Firestore.participants data = Some l →
    Messages.otherParticipant uid l = Some oid →
    Firestore.faults b (Firestore.log b ++ [Firestore.GetConversation cid])
      (Firestore.GetUser oid) = true →
    loaded uid cid s b (shown s (Chat.otherUser s))
      [Firestore.GetConversation cid; Firestore.GetUser oid]
| load_profile_absent data l oid :
    Firestore.faults b (Firestore.log b) (Firestore.GetConversation cid) = false →
    Firestore.conversations b !! cid = Some data →
    Firestore.participants data = Some l →
    Messages.otherParticipant uid l = Some oid →
    Firestore.faults b (Firestore.log b ++ [Firestore.GetConversation cid])
      (Firestore.GetUser oid) = false →
    Firestore.users b !! oid = None →
    loaded uid cid s b (shown s (Chat.otherUser s))
      [Firestore.GetConversation cid; Firestore.GetUser oid]
| load_profile data l oid userData :
    Firestore.faults b (Firestore.log b) (Firestore.GetConversation cid) = false →
    Firestore.conversations b !! cid = Some data →
    Firestore.participants data = Some l →
    Messages.otherParticipant uid l = Some oid →
    Firestore.faults b (Firestore.log b ++ [Firestore.GetConversation cid])
      (Firestore.GetUser oid) = false →
    Firestore.users b !! oid = Some userData →
    loaded uid cid s b (shown s (Some (exposed oid userData)))
      [Firestore.GetConversation cid; Firestore.GetUser oid].

(** ** Read marks *)

(** A message document with its read flag set. *)
Definition markRead (d : Firestore.MessageDoc) : Firestore.MessageDoc :=
  {| Firestore.conversationId := Firestore.conversationId d;
     Firestore.senderId := Firestore.senderId d;
     Firestore.receiverId := Firestore.receiverId d;
     Firestore.text := Firestore.text d;
     Firestore.read := true;
     Firestore.createdAt := Firestore.createdAt d |}.

(** Between two message stores, every document is as it was or has had
    its read flag set; none is added and none is removed. *)
Definition marked (m m' : gmap string Firestore.MessageDoc) : Prop :=
  ∀ i, m' !! i = m !! i ∨ m' !! i = markRead <$> m !! i.

(** Between two message stores, every document is still there, with the
    same fields, except that a read flag may have gone from [false] to
    [true]. *)
Definition read_monotone (m m' : gmap string Firestore.MessageDoc) : Prop :=
  ∀ i d, m !! i = Some d → m' !! i = Some d ∨ m' !! i = Some (markRead d).

(** The call that marks a message of the page as read. *)
Definition markCall (msg : Chat.Message) : Firestore.Call :=
  Firestore.UpdateMessage (Chat.id msg) Chat.readTrue.

(** One run of one of the four callbacks of the two pages, as a step of
    the database. *)
Inductive client_step : Firestore.Backend → Firestore.Backend → Prop :=
| step_inbox uid snapshot s b :
    client_step b (Messages.onConversationsSnapshot uid snapshot s b).2
| step_open uid cid s b :
    client_step b (Chat.loadConversation uid cid s b).2
| step_thread uid snapshot s b :
    client_step b (Chat.onMessagesSnapshot uid snapshot s b).2
| step_send user cid s b :
    client_step b (Chat.handleSendMessage user cid s b).2.

(** ** Outcomes of a send *)

(** The database once it has committed the append of [fields]. *)
Definition appended (fields : Firestore.NewMessage) (b : Firestore.Backend)
  : Firestore.Backend :=
  Firestore.with_messages
    (<[fresh (dom (Firestore.messages b))
         := Firestore.create (Firestore.clock b) fields]>
       (Firestore.messages b))
    (Firestore.record (Firestore.AddMessage fields) b).

(** The database once it has committed the merge of [fields] into the
    conversation [cid]. *)
Definition upserted (cid : string) (fields : Firestore.ConversationPatch)
    (b : Firestore.Backend) : Firestore.Backend :=
  Firestore.with_conversations
    (<[cid := Firestore.merge (Firestore.clock b) fields
                (default Firestore.no_conversation
                         (Firestore.conversations b !! cid))]>
       (Firestore.conversations b))
    (Firestore.record (Firestore.SetConversationMerge cid fields) b).

(** The page with the toast of a failed send. *)
Definition failed (s : Chat.State) : Chat.State :=
  {| Chat.messages := Chat.messages s; Chat.newMessage := Chat.newMessage s;
     Chat.otherUser := Chat.otherUser s; Chat.loading := Chat.loading s;
     Chat.toasts :=
       Chat.toasts s ++ [ {| Chat.title := "Error";
                             Chat.description := "Failed to send message";
                             Chat.variant := "destructive" |} ];
     Chat.navigated := Chat.navigated s |}.

(** The page with its draft cleared. *)
Definition cleared (s : Chat.State) : Chat.State :=
  {| Chat.messages := Chat.messages s; Chat.newMessage := "";
     Chat.otherUser := Chat.otherUser s; Chat.loading := Chat.loading s;
     Chat.toasts := Chat.toasts s; Chat.navigated := Chat.navigated s |}.

(** The outcome of [handleSendMessage], case by case. *)
Inductive sent (user conversationId : option string) (s : Chat.State)
    (b : Firestore.Backend) : Chat.State → Firestore.Backend → Prop :=
| send_refused :
    trim (Chat.newMessage s) = "" ∨ user = None ∨ Chat.otherUser s = None ∨
    conversationId = None ∨ conversationId = Some "" →
    sent user conversationId s b s b
| send_append_rejected uid other cid :
    user = Some uid → Chat.otherUser s = Some other →
    conversationId = Some cid →
    let text := trim (Chat.newMessage s) in
    let add := Chat.messageFields cid uid (Chat.OtherUser.id other) text in
    text ≠ "" → cid ≠ "" →
    Firestore.faults b (Firestore.log b) (Firestore.AddMessage add) = true →
    sent user conversationId s b (failed s)
      (Firestore.record (Firestore.AddMessage add) b)
| send_upsert_rejected uid other cid :
    user = Some uid → Chat.otherUser s = Some other →
    conversationId = Some cid →
    let text := trim (Chat.newMessage s) in
    let add := Chat.messageFields cid uid (Chat.OtherUser.id other) text in
    let set := Chat.summaryFields text in
    text ≠ "" → cid ≠ "" →
    Firestore.faults b (Firestore.log b) (Firestore.AddMessage add) = false →
    Firestore.faults b (Firestore.log b ++ [Firestore.AddMessage add])
      (Firestore.SetConversationMerge cid set) = true →
    sent user conversationId s b (failed s)
      (Firestore.record (Firestore.SetConversationMerge cid set)
         (appended add b))
| send_done uid other cid :
    user = Some uid → Chat.otherUser s = Some other →
    conversationId = Some cid →
    let text := trim (Chat.newMessage s) in
    let add := Chat.messageFields cid uid (Chat.OtherUser.id other) text in
    let set := Chat.summaryFields text in
    text ≠ "" → cid ≠ "" →
    Firestore.faults b (Firestore.log b) (Firestore.AddMessage add) = false →
    Firestore.faults b (Firestore.log b ++ [Firestore.AddMessage add])
      (Firestore.SetConversationMerge cid set) = false →
    sent user conversationId s b (cleared s) (upserted cid set (appended add b)).

(** The thread [c1] as Alice sees it while she types a reply to Bob. *)
Definition typing (draft : string) : Chat.State :=
  {| Chat.messages := []; Chat.newMessage := draft;
     Chat.otherUser :=
       Some {| Chat.OtherUser.id := "bob"; Chat.OtherUser.username := "Bob";
               Chat.OtherUser.avatarUrl := "" |};
     Chat.loading := false; Chat.toasts := []; Chat.navigated := [] |}.

(** The page once it holds the messages of a snapshot. *)
Definition holding (s : Chat.State) (messagesData : list Chat.Message)
  : Chat.State :=
  {| Chat.messages := messagesData; Chat.newMessage := Chat.newMessage s;
     Chat.otherUser := Chat.otherUser s; Chat.loading := Chat.loading s;
     Chat.toasts := Chat.toasts s; Chat.navigated := Chat.navigated s |}.

(** A document of a snapshot that is addressed to [uid] and not read. *)
Definition unread_for (uid : string) (d : string * Firestore.MessageDoc)
  : Prop :=
  Firestore.receiverId d.2 = uid ∧ Firestore.read d.2 = false.

(** ** Vocabulary of the further properties *)

(** A string of white space only. *)
Fixpoint all_white (s : string) : bool :=
  match s with
  | EmptyString => true
  | String c r => is_white c && all_white r
  end.

(** A string that neither starts nor ends with white space. *)
Definition trimmed (s : string) : Prop :=
  (∀ c r, s = String c r → is_white c = false) ∧
  (∀ r c, s = r +:+ String c "" → is_white c = false).

(** A conversation that only has the actor in it. *)
Definition notesToSelf : Firestore.ConversationDoc :=
  {| Firestore.participants := Some ["alice"];
     Firestore.lastMessage := Some "buy milk";
     Firestore.lastMessageTime := Some 1 |}.

(** Two message documents differ at most in their read flag, which has not
    gone from [true] to [false]. *)
Definition same_but_read (d d' : Firestore.MessageDoc) : Prop :=
  Firestore.conversationId d' = Firestore.conversationId d ∧
  Firestore.senderId d' = Firestore.senderId d ∧
  Firestore.receiverId d' = Firestore.receiverId d ∧
  Firestore.text d' = Firestore.text d ∧
  Firestore.createdAt d' = Firestore.createdAt d ∧
  (Firestore.read d = true → Firestore.read d' = true).

(** The thread [c1] with one more unread message for Alice, behind a
    connection that rejects the update of that message. *)
Definition m3 : Firestore.MessageDoc :=
  Scenario.message "c1" "bob" "alice" "bye" false 3.

Definition longThread : list (string * Firestore.MessageDoc) :=
  Scenario.thread ++ [("m3", m3)].

Definition lastUpdateDown : Firestore.Backend :=
  {| Firestore.users := Firestore.users Scenario.backend;
     Firestore.conversations := Firestore.conversations Scenario.backend;
     Firestore.messages := <[ "m3" := m3 ]> (Firestore.messages Scenario.backend);
     Firestore.clock := 4;
     Firestore.faults :=
       λ _ c, match c with
              | Firestore.UpdateMessage id _ => String.eqb id "m3"
              | _ => false
              end;
     Firestore.log := [] |}.

(** ** The enrichments of a snapshot, one by one *)




(** * Properties *)

(** ** Strings *)

Section strings.

Lemma append_nil (s : string) : "" +:+ s = s.
Proof. reflexivity. Qed.

Lemma append_cons (c : ascii) (s t : string) :
  String c s +:+ t = String c (s +:+ t).
Proof. reflexivity. Qed.

Lemma lowerASCII_app (s t : string) :
  lowerASCII (s +:+ t) = lowerASCII s +:+ lowerASCII t.
Proof.
  induction s as [|c s IH]; [done |].
  rewrite append_cons. cbn [lowerASCII]. by rewrite IH, append_cons.
Qed.

(** A split of a lowered string comes from a split of the string. *)
Lemma lowerASCII_split (s a b : string) :
  lowerASCII s = a +:+ b →
  ∃ a' b', s = a' +:+ b' ∧ lowerASCII a' = a ∧ lowerASCII b' = b.
Proof.
  revert s. induction a as [|c a IH]; intros s E.
  - by exists "", s.
  - rewrite append_cons in E. destruct s as [|d s]; cbn [lowerASCII] in E; [done |].
    injection E as Ec Es. destruct (IH _ Es) as (a' & b' & -> & Ea & Eb).
    exists (String d a'), b'. rewrite append_cons. cbn [lowerASCII].
    by rewrite Ec, Ea.
Qed.

Lemma startsWith_spec (s t : string) :
  startsWith s t = true ↔ ∃ post, s = t +:+ post.
Proof.
  revert s. induction t as [|b t IH]; intros s.
  - split; [by exists s | by destruct s].
  - destruct s as [|a s]; cbn [startsWith].
    + split; [done | intros [post E]; by rewrite append_cons in E].
    + rewrite andb_true_iff, bool_decide_eq_true, IH. split.
      * intros [-> [post ->]]. by exists post.
      * intros [post E]. rewrite append_cons in E. injection E as -> ->. eauto.
Qed.

Lemma includes_spec (s t : string) :
  includes s t = true ↔ ∃ pre post, s = pre +:+ t +:+ post.
Proof.
  induction s as [|a s IH].
  - cbn [includes]. rewrite orb_false_r, startsWith_spec. split.
    + intros [post E]. by exists "", post.
    + intros ([|c pre] & post & E); [by exists post |].
      by rewrite append_cons in E.
  - cbn [includes]. rewrite orb_true_iff, startsWith_spec, IH. split.
    + intros [[post E] | (pre & post & E)].
      * by exists "", post.
      * exists (String a pre), post. by rewrite append_cons, E.
    + intros ([|c pre] & post & E).
      * left. by exists post.
      * right. rewrite append_cons in E. injection E as _ E. by exists pre, post.
Qed.

End strings.

Lemma includes_contains (s t : string) : includes s t = true ↔ contains s t.
Proof. apply includes_spec. Qed.

Lemma includes_nocase (name term : string) :
  includes (lowerASCII name) (lowerASCII term) = true ↔
  contains_nocase name term.
Proof.
  rewrite includes_spec. split.
  - intros (pre & post & E).
    destruct (lowerASCII_split _ _ _ E) as (pre' & rest & -> & _ & E').
    destruct (lowerASCII_split _ _ _ E') as (sub & post' & -> & Es & _).
    by exists pre', sub, post'.
  - intros (pre & sub & post & -> & E).
    exists (lowerASCII pre), (lowerASCII post).
    by rewrite !lowerASCII_app, E.
Qed.

(** ** Lower-casing ASCII text *)

Lemma lower_ascii_N (c : ascii) :
  ascii_of_N (if ((65 <=? N_of_ascii c) && (N_of_ascii c <=? 90))%N
              then (N_of_ascii c + 32)%N else N_of_ascii c)
  = lower_ascii c.
Proof.
  destruct c as [[] [] [] [] [] [] [] []]; by vm_compute.
Qed.

Lemma lowered_N_ascii (c : N) :
  (c < 128)%N →
  ((if ((65 <=? c) && (c <=? 90))%N then (c + 32)%N else c) < 128)%N.
Proof.
  intros Hc. destruct (N.leb_spec 65 c), (N.leb_spec c 90); cbn; lia.
Qed.

(** On ASCII text, the lower-casing of the standard is the lower-casing of
    the letters from A to Z, for any character data that has Basic Latin
    right. *)
Lemma toLower_ascii (d : Unicode.Data) (s : string) :
  Unicode.basic_latin d → is_ascii s = true →
  Unicode.toLower d s = lowerASCII s.
Proof.
  intros Hd. unfold Unicode.toLower. generalize (@nil N) as before.
  induction s as [|c s IH]; intros before Hs; [done |].
  cbn [is_ascii] in Hs. apply andb_true_iff in Hs as [Hc Hs].
  apply N.ltb_lt in Hc.
  change (Unicode.bytes (String c s)) with (N_of_ascii c :: Unicode.bytes s).
  cbn [Unicode.decode].
  destruct (N.ltb_spec (N_of_ascii c) 128) as [_|]; [| lia].
  cbn [Unicode.lower].
  replace ((N_of_ascii c =? Unicode.SIGMA)%N) with false
    by (symmetry; apply N.eqb_neq; unfold Unicode.SIGMA; lia).
  cbn [andb]. rewrite (Hd _ Hc). cbn [app Unicode.encode flat_map].
  unfold Unicode.encode1 at 1.
  pose proof (lowered_N_ascii _ Hc) as Hlow.
  destruct (N.ltb_spec (if ((65 <=? N_of_ascii c) && (N_of_ascii c <=? 90))%N
                        then (N_of_ascii c + 32)%N else N_of_ascii c) 128)
    as [_|]; [| lia].
  cbn [app Unicode.text map string_of_list_ascii].
  rewrite lower_ascii_N. cbn [lowerASCII]. f_equal.
  by apply (IH (N_of_ascii c :: before)).
Qed.

Lemma basic_latin_basic : Unicode.basic_latin Unicode.basic.
Proof.
  intros c Hc. cbn. unfold Unicode.capital.
  destruct (N.leb_spec 65 c), (N.leb_spec c 90), (N.leb_spec 913 c),
    (N.leb_spec c 937); cbn; try done; lia.
Qed.

Lemma is_ascii_app (s t : string) :
  is_ascii (s +:+ t) = is_ascii s && is_ascii t.
Proof.
  induction s as [|c s IH]; [done |].
  rewrite append_cons. cbn [is_ascii]. by rewrite IH, andb_assoc.
Qed.

(** ** The inbox search filter *)

(** C8, as the filter has it. The search filter of the inbox is a
    function of the resolved entries and the search string alone: two
    page states with the same entries and the same search string filter
    to the same list, whatever else differs; the filtered list keeps the
    order of the resolved entries; the filter is an expression over the
    page state, it takes no database and returns none, so it issues no
    call and leaves entries and subscription as they are. An entry is in
    the filtered list exactly when it is a resolved entry and the lower
    case of its other participant's display name contains the lower case
    of the search string as a substring, both taken by the host's
    [toLowerCase]. For a display name and a search string of ASCII
    characters, that is: the display name contains the search string as
    a substring up to the case of letters. *)
Theorem filteredConversations_spec :
  (∀ (H : Host) (s : Messages.State),
     (∀ conv,
        conv ∈ Messages.filteredConversations s ↔
        conv ∈ Messages.conversations s ∧
        contains (toLowerCase (Messages.otherUserName conv))
                 (toLowerCase (Messages.searchTerm s))) ∧
     sublist (Messages.filteredConversations s) (Messages.conversations s) ∧
     (∀ s' : Messages.State,
        Messages.conversations s' = Messages.conversations s →
        Messages.searchTerm s' = Messages.searchTerm s →
        Messages.filteredConversations s' = Messages.filteredConversations s)) ∧
  (∀ (d : Unicode.Data) (s : Messages.State) conv,
     Unicode.basic_latin d →
     is_ascii (Messages.otherUserName conv) = true →
     is_ascii (Messages.searchTerm s) = true →
     (conv ∈ Messages.filteredConversations (H := Unicode.js d) s ↔
      conv ∈ Messages.conversations s ∧
      contains_nocase (Messages.otherUserName conv) (Messages.searchTerm s))).
Proof.
  split.
  - intros H s. unfold Messages.filteredConversations. split_and!.
    + intros conv.
      rewrite list_elem_of_filter, Is_true_true, includes_contains. tauto.
    + apply sublist_filter.
    + by intros s' -> ->.
  - intros d s conv Hd Hn Ht. unfold Messages.filteredConversations.
    rewrite list_elem_of_filter, Is_true_true. cbn [toLowerCase Unicode.js].
    rewrite !toLower_ascii, includes_nocase by done. tauto.
Qed.

Lemma filteredConversations_spec_witness :
  let bob := entryOf Scenario.backend "alice" ("c1", Scenario.c1)
               ["alice"; "bob"] "bob" in
  let carol := entryOf Scenario.backend "alice" ("c2", Scenario.c2)
                 ["carol"; "alice"] "carol" in
  let s := {| Messages.conversations := [bob; carol];
              Messages.loading := false; Messages.searchTerm := "OB" |} in
  bob ∈ Messages.filteredConversations (H := Unicode.js Unicode.basic) s ∧
  carol ∉ Messages.filteredConversations (H := Unicode.js Unicode.basic) s.
Proof.
  intros bob carol s.
  destruct filteredConversations_spec as [_ H]. split.
  - apply (H Unicode.basic s bob basic_latin_basic); [done | done |].
    split; [by left |]. by exists "B", "ob", "".
  - intros Hc.
    apply (H Unicode.basic s carol basic_latin_basic) in Hc as [_ Hc];
      [| done | done].
    apply includes_nocase in Hc. by vm_compute in Hc.
Defined.

(** C8 fails as stated: the display name ΝΙΚΟΣ contains the search string
    Σ, letter for letter, and the entry is not retained: the capital sigma
    at the end of the name is lowered to the final sigma ς, the search
    string to σ. *)
Lemma filteredConversations_counterexample :
  let H := Unicode.js Unicode.basic in
  let nikos := {| Messages.id := "c9"; Messages.participants := ["alice"; "nikos"];
                  Messages.lastMessage := ""; Messages.lastMessageTime := None;
                  Messages.otherUserId := "nikos";
                  Messages.otherUserName := "ΝΙΚΟΣ";
                  Messages.otherUserAvatar := ""; Messages.unreadCount := 0 |} in
  let s := {| Messages.conversations := [nikos]; Messages.loading := false;
              Messages.searchTerm := "Σ" |} in
  Messages.otherUserName nikos = "ΝΙΚΟ" +:+ Messages.searchTerm s +:+ "" ∧
  contains_nocase (Messages.otherUserName nikos) (Messages.searchTerm s) ∧
  toLowerCase (Messages.otherUserName nikos) = "νικος" ∧
  toLowerCase (Messages.searchTerm s) = "σ" ∧
  Messages.filteredConversations s = [].
Proof.
  intros H nikos s. split_and!; try by vm_compute.
  by exists "ΝΙΚΟ", "Σ", "".
Qed.

(** ** What calls leave as it was *)

Lemma same_stores_refl b : same_stores b b.
Proof. by repeat split. Qed.

Lemma same_stores_trans b1 b2 b3 :
  same_stores b1 b2 → same_stores b2 b3 → same_stores b1 b3.
Proof.
  unfold same_stores. intros (-> & -> & -> & -> & ->) (-> & -> & -> & -> & ->).
  done.
Qed.

Lemma same_stores_record c b : same_stores b (Firestore.record c b).
Proof. by repeat split. Qed.

Ltac subst_lets :=
  repeat match goal with x := _ |- _ => subst x end.

Ltac async_unfold :=
  unfold mbind, mret, Async_bind, Async_ret, await, resolved, throw,
    try_catch, setState, call in *.

(** ** Resolution of one inbox entry *)

Lemma resolveConversation_resolution uid cd s b :
  ∃ r issued b',
    Messages.resolveConversation uid cd s b = (r, s, b') ∧
    resolution uid cd b r issued ∧
    same_stores b b' ∧
    Firestore.log b' = Firestore.log b ++ issued.
Proof.
  unfold Messages.resolveConversation, Messages.participantsOf, doc,
    getDoc_users, getDocs_messages.
  async_unfold.
  destruct (Firestore.participants cd.2) as [l|] eqn:El.
  2:{ eexists _, [], b. rewrite app_nil_r.
      split_and!; [done | by constructor | apply same_stores_refl | done]. }
  destruct (Messages.otherParticipant uid l) as [oid|] eqn:Eo.
  2:{ eexists _, [], b. rewrite app_nil_r.
      split_and!; [done | by econstructor | apply same_stores_refl | done]. }
  destruct (Firestore.faults b (Firestore.log b) (Firestore.GetUser oid)) eqn:F1.
  { eexists _, _, _. split_and!; [done | by econstructor | | done].
    apply same_stores_record. }
  cbn [Firestore.faults Firestore.log Firestore.record].
  destruct (Firestore.faults b (Firestore.log b ++ [Firestore.GetUser oid])
              (Firestore.GetMessages (Messages.messagesQuery uid cd.1))) eqn:F2.
  { eexists _, _, _. split_and!; [done | by econstructor | by repeat split |].
    cbn. by rewrite <- app_assoc. }
  eexists _, _, _. split_and!; [done | | by repeat split |].
  - by apply (res_fulfilled uid cd b l oid).
  - cbn. by rewrite <- app_assoc.
Qed.

Lemma entryOf_same_stores b b' uid cd l oid :
  same_stores b b' → entryOf b' uid cd l oid = entryOf b uid cd l oid.
Proof. intros (Eu & _ & Em & _). unfold entryOf. by rewrite Eu, Em. Qed.

Lemma is_write_resolution uid cd b r issued :
  resolution uid cd b r issued →
  Forall (λ c, Firestore.is_write c = false) issued.
Proof. destruct 1; repeat constructor. Qed.

(** The join of the resolutions of a snapshot. *)
Lemma promise_all_resolution uid snapshot s b :
  ∃ r issued b',
    promise_all (map (Messages.resolveConversation uid) snapshot) s b
      = (r, s, b') ∧
    same_stores b b' ∧
    Firestore.log b' = Firestore.log b ++ issued ∧
    Forall (λ c, Firestore.is_write c = false) issued ∧
    match r with
    | Fulfilled es => Forall2 (resolves_to b uid) snapshot es
    | Rejected _ => True
    end.
Proof.
  revert b. induction snapshot as [|cd snapshot IH]; intros b.
  - exists (Fulfilled []), [], b. rewrite app_nil_r.
    split_and!; [done | apply same_stores_refl | done | done | constructor].
  - destruct (resolveConversation_resolution uid cd s b)
      as (r1 & i1 & b1 & E1 & R1 & S1 & L1).
    destruct (IH b1) as (r2 & i2 & b2 & E2 & S2 & L2 & W2 & P2).
    cbn [map promise_all]. rewrite E1, E2.
    eexists _, (i1 ++ i2), b2. split_and!; [done | | | |].
    + by eapply same_stores_trans.
    + by rewrite L2, L1, app_assoc.
    + apply Forall_app. split; [by eapply is_write_resolution | done].
    + destruct R1 as [| | | |l oid Hl Ho F1 F2]; try done.
      destruct r2 as [es|]; [|done]. constructor.
      * by exists l, oid, (Firestore.log b),
          (Firestore.log b ++ [Firestore.GetUser oid]).
      * eapply Forall2_impl; [exact P2|].
        intros cd' e (l' & oid' & h & h' & ? & ? & F & F' & ->).
        destruct S1 as (Eu & Ec & Em & Ek & Ef). rewrite Ef in F, F'.
        exists l', oid', h, h'. split_and!; try done.
        apply entryOf_same_stores. by repeat split.
Qed.

(** Under an oracle that rejects nothing, the join is fulfilled as soon as
    every conversation of the snapshot names another participant. *)
Lemma promise_all_fulfils uid snapshot s b :
  no_faults b →
  Forall (λ cd, ∃ l oid, Firestore.participants cd.2 = Some l ∧
                         Messages.otherParticipant uid l = Some oid) snapshot →
  ∃ es b',
    promise_all (map (Messages.resolveConversation uid) snapshot) s b
      = (Fulfilled es, s, b').
Proof.
  revert b. induction snapshot as [|cd snapshot IH]; intros b Hf Hs.
  - by exists [], b.
  - apply Forall_cons in Hs as [(l & oid & Hl & Ho) Hs].
    destruct (resolveConversation_resolution uid cd s b)
      as (r1 & i1 & b1 & E1 & R1 & S1 & L1).
    assert (no_faults b1) as Hf1.
    { destruct S1 as (_ & _ & _ & _ & Ef). intros h c. by rewrite Ef. }
    destruct (IH b1 Hf1 Hs) as (es & b2 & E2).
    cbn [map promise_all]. rewrite E1, E2.
    destruct R1; try congruence; try (by rewrite Hf in *); eauto.
Qed.

(** ** The inbox handler *)

Lemma onConversationsSnapshot_cases uid snapshot s b :
  ∃ issued b',
    same_stores b b' ∧
    Firestore.log b' = Firestore.log b ++ issued ∧
    Forall (λ c, Firestore.is_write c = false) issued ∧
    ((∃ e, Messages.onConversationsSnapshot uid snapshot s b
             = (Rejected e, s, b')) ∨
     (∃ es, Messages.onConversationsSnapshot uid snapshot s b
              = (Fulfilled tt, emitted s es, b') ∧
            Forall2 (resolves_to b uid) snapshot es)).
Proof.
  destruct (promise_all_resolution uid snapshot s b)
    as (r & issued & b' & E & S & L & W & P).
  exists issued, b'. split_and!; try done.
  unfold Messages.onConversationsSnapshot. async_unfold. rewrite E.
  destruct r as [es|e]; [right | left]; eauto.
Qed.

Lemma onConversationsSnapshot_fulfils uid snapshot s b :
  no_faults b →
  Forall (λ cd, ∃ l oid, Firestore.participants cd.2 = Some l ∧
                         Messages.otherParticipant uid l = Some oid) snapshot →
  ∃ s' b', Messages.onConversationsSnapshot uid snapshot s b
             = (Fulfilled tt, s', b').
Proof.
  intros Hf Hs. destruct (promise_all_fulfils uid snapshot s b Hf Hs)
    as (es & b' & E).
  unfold Messages.onConversationsSnapshot. async_unfold. rewrite E. eauto.
Qed.

Lemma resolves_to_ids b uid snapshot es :
  Forall2 (resolves_to b uid) snapshot es → map Messages.id es = snapshot.*1.
Proof.
  induction 1 as [|cd e snapshot es (l & oid & h & h' & _ & _ & _ & _ & ->) _ IH];
    [done |].
  cbn. by rewrite IH.
Qed.

Lemma unreadDocs_length store A C :
  length (unreadDocs store A C) = unread store A C.
Proof.
  unfold unreadDocs, unread. rewrite length_map_to_list. f_equal.
  apply map_filter_ext. intros i d _. cbn.
  rewrite !andb_True, !bool_decide_spec. cbn [Is_true]. tauto.
Qed.

(** C1. When the Conversation Index emits the inbox of actor [uid] for a
    snapshot, it has one entry per conversation of the snapshot, in the
    snapshot's order, and the unread count of the entry of conversation
    [C] is the number of message records with [conversationId = C],
    [receiverId = uid] and [read = false] in the message store, which is
    the same store before and after the handler runs. *)
Theorem inbox_unread_count uid snapshot s b s' b' :
  Messages.onConversationsSnapshot uid snapshot s b = (Fulfilled tt, s', b') →
  Firestore.messages b' = Firestore.messages b ∧
  map Messages.id (Messages.conversations s') = snapshot.*1 ∧
  ∀ e, e ∈ Messages.conversations s' →
       Messages.unreadCount e
       = unread (Firestore.messages b) uid (Messages.id e).
Proof.
  intros E.
  destruct (onConversationsSnapshot_cases uid snapshot s b)
    as (issued & b1 & S & _ & _ & [[e E1] | (es & E1 & P)]);
    rewrite E1 in E; [done |].
  injection E as <- <-. split_and!.
  - apply S.
  - by eapply resolves_to_ids.
  - intros e He. cbn in He.
    destruct (proj1 (list_elem_of_lookup _ _) He) as [i Hi].
    destruct (Forall2_lookup_r _ _ _ _ _ P Hi)
      as (cd & _ & l & oid & h & h' & _ & _ & _ & _ & ->).
    cbn. apply unreadDocs_length.
Qed.

Lemma inbox_unread_count_witness :
  let out := Messages.onConversationsSnapshot "alice" Scenario.inbox
               Messages.initial Scenario.backend in
  out.1.1 = Fulfilled tt ∧
  map Messages.unreadCount (Messages.conversations out.1.2) = [1; 0] ∧
  ∀ e, e ∈ Messages.conversations out.1.2 →
       Messages.unreadCount e
       = unread (Firestore.messages Scenario.backend) "alice" (Messages.id e).
Proof.
  intros out. split; [by vm_compute |]. split; [by vm_compute |].
  apply (inbox_unread_count "alice" Scenario.inbox Messages.initial
           Scenario.backend out.1.2 out.2).
  by vm_compute.
Defined.








(** ** Opening a thread *)

Lemma loadConversation_loaded uid cid s b :
  ∃ s' issued b',
    Chat.loadConversation uid cid s b = (Fulfilled tt, s', b') ∧
    loaded uid cid s b s' issued ∧
    same_stores b b' ∧
    Firestore.log b' = Firestore.log b ++ issued.
Proof.
  unfold Chat.loadConversation, getDoc_conversations, getDoc_users,
    Messages.participantsOf, doc, Chat.toast, Chat.navigate, Chat.setLoading,
    Chat.setOtherUser.
  async_unfold.
  destruct (Firestore.faults b (Firestore.log b) (Firestore.GetConversation cid))
    eqn:F1.
  { eexists _, _, _. split_and!; [done | by apply load_rejected | | done].
    apply same_stores_record. }
  cbn [Firestore.conversations Firestore.record].
  destruct (Firestore.conversations b !! cid) as [data|] eqn:Ec.
  2:{ eexists _, _, _. split_and!; [done | by apply load_not_found | | done].
      apply same_stores_record. }
  destruct (Firestore.participants data) as [l|] eqn:El.
  2:{ eexists _, _, _.
      split_and!; [done | by eapply load_no_participants | | done].
      apply same_stores_record. }
  destruct (Messages.otherParticipant uid l) as [oid|] eqn:Eo.
  2:{ eexists _, _, _. split_and!; [done | by eapply load_no_other | | done].
      apply same_stores_record. }
  cbn [Firestore.faults Firestore.log Firestore.record].
  destruct (Firestore.faults b (Firestore.log b ++ [Firestore.GetConversation cid])
              (Firestore.GetUser oid)) eqn:F2.
  { eexists _, _, _.
    split_and!; [done | by eapply load_profile_rejected | by repeat split |].
    cbn. by rewrite <- app_assoc. }
  cbn [Firestore.users Firestore.record].
  destruct (Firestore.users b !! oid) as [userData|] eqn:Eu.
  - eexists _, _, _.
    split_and!;
      [done | by apply (load_profile uid cid s b data l oid userData)
      | by repeat split |].
    cbn. by rewrite <- app_assoc.
  - eexists _, _, _.
    split_and!;
      [done | by apply (load_profile_absent uid cid s b data l oid)
      | by repeat split |].
    cbn. by rewrite <- app_assoc.
Qed.

(** C4, as the page has it. Opening a thread always completes. On an
    existing conversation the page leaves its spinner and shows the thread,
    whatever happens to the profile lookup; the only way to stay off the
    thread is a conversation lookup that answers "absent", after which the
    page raises a toast and leaves for the inbox. When both lookups are
    answered, a profile record that exists is exposed with its name, or
    "Unknown" for a missing or empty one, and its avatar, or the empty
    string; when the profile record is absent, no other participant is
    exposed: [otherUser] keeps the value it had. *)
Theorem loadConversation_ready uid cid s b :
  let '(r, s', b') := Chat.loadConversation uid cid s b in
  r = Fulfilled tt ∧
  (Chat.loading s' = false ∧ Chat.navigated s' = Chat.navigated s ∨
   Firestore.conversations b !! cid = None ∧ s' = left s ∧
   Chat.thread s' = Chat.NotFound) ∧
  ∀ data,
    Firestore.conversations b !! cid = Some data →
    Chat.loading s' = false ∧
    Chat.navigated s' = Chat.navigated s ∧
    (Chat.thread s = Chat.Loading → Chat.thread s' = Chat.Ready) ∧
    ∀ l oid,
      Firestore.participants data = Some l →
      Messages.otherParticipant uid l = Some oid →
      Firestore.faults b (Firestore.log b) (Firestore.GetConversation cid)
        = false →
      Firestore.faults b (Firestore.log b ++ [Firestore.GetConversation cid])
        (Firestore.GetUser oid) = false →
      Chat.otherUser s' =
        match Firestore.users b !! oid with
        | Some userData => Some (exposed oid userData)
        | None => Chat.otherUser s
        end.
Proof.
  destruct (loadConversation_loaded uid cid s b)
    as (s' & issued & b' & -> & L & _ & _).
  split; [done |]. split.
  - destruct L; auto. right. split_and!; try done.
    unfold Chat.thread, left. cbn. by destruct (Chat.navigated s).
  - intros data Hd.
    assert (Chat.loading s' = false ∧ Chat.navigated s' = Chat.navigated s)
      as [Hl Hn] by (destruct L; by simplify_eq).
    split_and!; try done.
    + unfold Chat.thread. rewrite Hl, Hn. by destruct (Chat.navigated s).
    + intros l oid Hp Ho F1 F2.
      destruct L as [| | | | |? ? ? ? ? ? ? ? Hu|? ? ? ? ? ? ? ? ? Hu];
        simplify_eq; cbn; try congruence; by rewrite Hu.
Qed.

Lemma loadConversation_ready_witness :
  let out := Chat.loadConversation "alice" "c1" Chat.initial Scenario.backend in
  Chat.thread out.1.2 = Chat.Ready ∧
  Chat.otherUser out.1.2
  = Some {| Chat.OtherUser.id := "bob"; Chat.OtherUser.username := "Bob";
            Chat.OtherUser.avatarUrl := "" |}.
Proof.
  intros out.
  pose proof (loadConversation_ready "alice" "c1" Chat.initial Scenario.backend)
    as H.
  change (Chat.loadConversation _ _ _ _) with out in H.
  destruct out as [[r s'] b']. cbn [fst snd]. destruct H as (_ & _ & H).
  destruct (H Scenario.c1) as (_ & _ & Ht & Ho); [by vm_compute |].
  split; [by apply Ht |].
  by rewrite (Ho ["alice"; "bob"] "bob");
    [vm_compute | vm_compute | vm_compute | vm_compute | vm_compute].
Defined.

(** C4 fails as stated: Alice opens the thread [c2], whose other
    participant Carol has no profile record. The page shows the thread,
    but it exposes no other participant at all: [otherUser] is still
    [null], not a participant called "Unknown" with an empty avatar. *)
Lemma loadConversation_counterexample :
  let out := Chat.loadConversation "alice" "c2" Chat.initial Scenario.backend in
  Firestore.conversations Scenario.backend !! "c2" = Some Scenario.c2 ∧
  Firestore.users Scenario.backend !! "carol" = None ∧
  Chat.thread out.1.2 = Chat.Ready ∧
  Chat.otherUser out.1.2 = None ∧
  Chat.otherUser out.1.2
  ≠ Some {| Chat.OtherUser.id := "carol";
            Chat.OtherUser.username := "Unknown";
            Chat.OtherUser.avatarUrl := "" |}.
Proof. intros out. split_and!; by vm_compute. Qed.

(** ** The other participant *)

Lemma otherParticipant_Some uid l oid :
  Messages.otherParticipant uid l = Some oid → oid ∈ l ∧ oid ≠ uid.
Proof.
  unfold Messages.otherParticipant. intros H.
  apply find_some in H as [Hin Hne].
  apply list_elem_of_In in Hin. by apply bool_decide_eq_true in Hne.
Qed.

Lemma otherParticipant_is_Some uid l :
  (∃ id, id ∈ l ∧ id ≠ uid) → is_Some (Messages.otherParticipant uid l).
Proof.
  intros (id & Hin & Hne). unfold Messages.otherParticipant.
  destruct (find _ l) as [oid|] eqn:E; [by eexists |].
  apply list_elem_of_In in Hin.
  pose proof (find_none _ _ E _ Hin) as Hid. cbn in Hid.
  by apply bool_decide_eq_false in Hid.
Qed.

(** C10. When the participants of a conversation include an identifier
    other than the actor's, the lookup [participants.find(id != actor)]
    yields an identifier: one of the participants, different from the
    actor. Both the Conversation Index and the Thread Synchronizer fetch
    the profile of that identifier: the first call of an inbox resolution
    is the lookup of its profile, and no other profile is looked up; a
    thread whose conversation lookup is answered issues the lookup of its
    profile next, and nothing else. *)
Theorem otherParticipant_total uid l :
  (∃ id, id ∈ l ∧ id ≠ uid) →
  ∃ oid,
    Messages.otherParticipant uid l = Some oid ∧ oid ∈ l ∧ oid ≠ uid ∧
    (∀ cd s b,
       Firestore.participants cd.2 = Some l →
       ∃ rest,
         Firestore.log (Messages.resolveConversation uid cd s b).2
         = Firestore.log b ++ Firestore.GetUser oid :: rest ∧
         ∀ id', Firestore.GetUser id' ∉ rest) ∧
    (∀ cid data s b,
       Firestore.faults b (Firestore.log b) (Firestore.GetConversation cid)
         = false →
       Firestore.conversations b !! cid = Some data →
       Firestore.participants data = Some l →
       Firestore.log (Chat.loadConversation uid cid s b).2
       = Firestore.log b ++ [Firestore.GetConversation cid;
                             Firestore.GetUser oid]).
Proof.
  intros H. destruct (otherParticipant_is_Some uid l H) as [oid Ho].
  destruct (otherParticipant_Some uid l oid Ho) as [Hin Hne].
  exists oid. split_and!; try done.
  - intros cd s b Hl.
    destruct (resolveConversation_resolution uid cd s b)
      as (r & issued & b' & -> & R & _ & L). cbn [snd]. rewrite L.
    destruct R; simplify_eq.
    + exists []. split; [done |]. intros id'. apply not_elem_of_nil.
    + eexists [_]. split; [done |]. intros id' Hid.
      apply list_elem_of_singleton in Hid. done.
    + eexists [_]. split; [done |]. intros id' Hid.
      apply list_elem_of_singleton in Hid. done.
  - intros cid data s b F Hc Hl.
    destruct (loadConversation_loaded uid cid s b)
      as (s' & issued & b' & -> & L & _ & E). cbn [snd]. rewrite E.
    destruct L; simplify_eq; congruence.
Qed.

Lemma otherParticipant_total_witness :
  Messages.otherParticipant "alice" ["carol"; "alice"] = Some "carol" ∧
  Firestore.log (Messages.resolveConversation "alice" ("c2", Scenario.c2)
                   Messages.initial Scenario.backend).2
  = [Firestore.GetUser "carol";
     Firestore.GetMessages (Messages.messagesQuery "alice" "c2")] ∧
  Firestore.log (Chat.loadConversation "alice" "c2" Chat.initial
                   Scenario.backend).2
  = [Firestore.GetConversation "c2"; Firestore.GetUser "carol"].
Proof.
  destruct (otherParticipant_total "alice" ["carol"; "alice"])
    as (oid & Ho & _ & _ & Hr & Hl).
  { exists "carol". split; [by left | done]. }
  assert (oid = "carol") as -> by (vm_compute in Ho; congruence).
  split; [done |]. split.
  - by vm_compute.
  - by rewrite (Hl "c2" Scenario.c2 Chat.initial Scenario.backend);
      [vm_compute | vm_compute | vm_compute | vm_compute].
Defined.

(** ** Marking a thread as read *)

Lemma update_readTrue now d : Firestore.update now Chat.readTrue d = markRead d.
Proof. reflexivity. Qed.

Lemma markRead_idemp d : markRead (markRead d) = markRead d.
Proof. reflexivity. Qed.

Lemma marked_refl m : marked m m.
Proof. intros i. by left. Qed.

Lemma marked_trans m1 m2 m3 : marked m1 m2 → marked m2 m3 → marked m1 m3.
Proof.
  intros H12 H23 i. destruct (H12 i) as [E|E], (H23 i) as [E'|E'];
    rewrite E', E; auto.
  right. destruct (m1 !! i); cbn; [by rewrite markRead_idemp | done].
Qed.

Lemma marked_insert m i d :
  m !! i = Some d → marked m (<[i := markRead d]> m).
Proof.
  intros H j. destruct (decide (i = j)) as [<-|Hne].
  - right. by rewrite lookup_insert_eq, H.
  - left. by rewrite lookup_insert_ne.
Qed.

Lemma marked_is_Some m m' i : marked m m' → is_Some (m !! i) → is_Some (m' !! i).
Proof.
  intros H [d Hd]. destruct (H i) as [E|E]; rewrite E, Hd; by eexists.
Qed.

Lemma marked_read_monotone m m' : marked m m' → read_monotone m m'.
Proof.
  intros H i d Hd. destruct (H i) as [E|E]; rewrite E, Hd; auto.
Qed.

Lemma marked_read m m' i :
  marked m m' → Firestore.read <$> m !! i = Some true →
  Firestore.read <$> m' !! i = Some true.
Proof.
  intros H Hi. destruct (H i) as [E|E]; rewrite E; [done |].
  destruct (m !! i); [done | done].
Qed.

Lemma markCall_cases msg (s : Chat.State) b :
  updateDoc_messages (Chat.id msg) Chat.readTrue s b =
  if Firestore.faults b (Firestore.log b) (markCall msg)
  then (Rejected FirestoreError, s, Firestore.record (markCall msg) b)
  else
    match Firestore.messages b !! Chat.id msg with
    | Some d =>
        (Fulfilled tt, s,
         Firestore.with_messages
           (<[Chat.id msg := markRead d]> (Firestore.messages b))
           (Firestore.record (markCall msg) b))
    | None => (Rejected FirestoreError, s, Firestore.record (markCall msg) b)
    end.
Proof.
  unfold updateDoc_messages, call, markCall.
  destruct (Firestore.faults b _ _); [done |].
  cbn [Firestore.messages Firestore.record].
  by destruct (Firestore.messages b !! Chat.id msg).
Qed.

(** The loop over the unread messages: it stops at the first update that
    rejects; [k] updates have been issued by then. *)
Lemma mark_loop ms (s : Chat.State) b :
  ∃ r k b',
    for_of ms (λ msg, updateDoc_messages (Chat.id msg) Chat.readTrue) s b
      = (r, s, b') ∧
    Firestore.users b' = Firestore.users b ∧
    Firestore.conversations b' = Firestore.conversations b ∧
    Firestore.faults b' = Firestore.faults b ∧
    Firestore.log b' = Firestore.log b ++ map markCall (take k ms) ∧
    marked (Firestore.messages b) (Firestore.messages b') ∧
    (r = Fulfilled tt →
     ∀ msg, msg ∈ ms →
            Firestore.read <$> Firestore.messages b' !! Chat.id msg = Some true) ∧
    (no_faults b →
     (∀ msg, msg ∈ ms → is_Some (Firestore.messages b !! Chat.id msg)) →
     r = Fulfilled tt).
Proof.
  revert b. induction ms as [|msg ms IH]; intros b.
  - exists (Fulfilled tt), 0, b. cbn. rewrite app_nil_r.
    split_and!; try done; [apply marked_refl | by intros _ msg ?%elem_of_nil].
  - cbn [for_of]. unfold mbind, Async_bind, await. rewrite markCall_cases.
    destruct (Firestore.faults b (Firestore.log b) (markCall msg)) eqn:F.
    { eexists _, 1, _. split_and!; try done; [apply marked_refl |].
      intros Hno. by rewrite Hno in F. }
    destruct (Firestore.messages b !! Chat.id msg) as [d|] eqn:Ed.
    2:{ eexists _, 1, _. split_and!; try done; [apply marked_refl |].
        intros _ Hall. destruct (Hall msg) as [d Hd]; [by left | congruence]. }
    match goal with
    | |- context [for_of ms _ s ?b1] => destruct (IH b1)
        as (r & k & b' & E & Eu & Ec & Ef & El & Hm & Hr & Ht)
    end.
    rewrite E. exists r, (S k), b'.
    cbn [Firestore.users Firestore.conversations Firestore.faults Firestore.log
         Firestore.messages Firestore.with_messages Firestore.record] in *.
    split_and!; try done.
    + rewrite El. cbn. by rewrite <- app_assoc.
    + eapply marked_trans; [by apply marked_insert | done].
    + intros Hful msg' [->|Hin]%elem_of_cons; [|by apply Hr].
      eapply marked_read; [exact Hm |]. by rewrite lookup_insert_eq.
    + intros Hno Hall. apply Ht; [done |].
      intros msg' Hin. eapply marked_is_Some; [by apply marked_insert |].
      apply Hall. by right.
Qed.

(** ** Sending a message *)

Lemma truthy_false s : truthy s = false ↔ s = "".
Proof. by destruct s. Qed.

Lemma truthy_true s : truthy s = true ↔ s ≠ "".
Proof. by destruct s. Qed.

Lemma handleSendMessage_sent user conversationId s b :
  ∃ s' b',
    Chat.handleSendMessage user conversationId s b = (Fulfilled tt, s', b') ∧
    sent user conversationId s b s' b'.
Proof.
  unfold Chat.handleSendMessage.
  destruct user as [uid|]; [| exists s, b; split; [done | constructor; auto]].
  destruct (Chat.otherUser s) as [other|] eqn:Eo;
    [| exists s, b; split; [done | constructor; auto]].
  destruct conversationId as [cid|];
    [| exists s, b; split; [done | constructor; auto]].
  destruct (truthy (trim (Chat.newMessage s))) eqn:Et.
  2:{ exists s, b. split; [done |]. constructor. left. by apply truthy_false. }
  destruct (truthy cid) eqn:Ec.
  2:{ exists s, b. split; [done |]. constructor. do 4 right.
      apply truthy_false in Ec. by subst. }
  apply truthy_true in Et, Ec. cbn [negb orb].
  unfold addDoc_messages, setDoc_merge_conversations, Chat.setNewMessage,
    Chat.toast.
  async_unfold.
  destruct (Firestore.faults b (Firestore.log b) _) eqn:F1.
  { eexists _, _. split; [done |].
    by apply (send_append_rejected _ _ s b uid other cid). }
  cbn [Firestore.faults Firestore.log Firestore.record Firestore.with_messages].
  destruct (Firestore.faults b (Firestore.log b ++ _) _) eqn:F2.
  { eexists _, _. split; [done |].
    by apply (send_upsert_rejected _ _ s b uid other cid). }
  eexists _, _. split; [done |].
  by apply (send_done _ _ s b uid other cid).
Qed.

(** C6. A send whose draft is empty after trimming returns at once: the
    page state and the database are exactly as before, log of calls
    included, so neither the append of a message nor the upsert of the
    conversation summary is attempted and both stores are unchanged. *)
Theorem empty_draft_writes_nothing user conversationId s b :
  trim (Chat.newMessage s) = "" →
  Chat.handleSendMessage user conversationId s b = (Fulfilled tt, s, b).
Proof.
  intros H. unfold Chat.handleSendMessage. rewrite H.
  by destruct user, (Chat.otherUser s), conversationId.
Qed.

Lemma empty_draft_writes_nothing_witness :
  let s := {| Chat.messages := []; Chat.newMessage := "  ";
              Chat.otherUser := Some (exposed "bob" Scenario.bobProfile);
              Chat.loading := false; Chat.toasts := [];
              Chat.navigated := [] |} in
  Chat.handleSendMessage (Some "alice") (Some "c1") s Scenario.backend
  = (Fulfilled tt, s, Scenario.backend).
Proof.
  intros s. apply (empty_draft_writes_nothing (Some "alice") (Some "c1") s).
  reflexivity.
Defined.

Lemma appended_fresh (b : Firestore.Backend) :
  Firestore.messages b !! fresh (dom (Firestore.messages b)) = None.
Proof. apply not_elem_of_dom, is_fresh. Qed.

(** C5. A send with a non-empty trimmed draft whose two writes are let
    through issues exactly two calls, in this order: the append of a
    message with the trimmed text, [read = false] and the server-time
    sentinel, then the merge of [lastMessage] and [lastMessageTime], and of
    nothing else, into the conversation. Afterwards the message store is
    the old one plus one record under an identifier that was free, stamped
    with the server's clock; the conversation record exists, carries the
    text and the server's time of the second write, and has the
    participants it had before (none if it was absent); every other
    conversation and the user store are unchanged. *)
Theorem send_appends_then_upserts uid cid other s b :
  let text := trim (Chat.newMessage s) in
  let add := Firestore.AddMessage
               (Chat.messageFields cid uid (Chat.OtherUser.id other) text) in
  let set := Firestore.SetConversationMerge cid (Chat.summaryFields text) in
  Chat.otherUser s = Some other → text ≠ "" → cid ≠ "" →
  Firestore.faults b (Firestore.log b) add = false →
  Firestore.faults b (Firestore.log b ++ [add]) set = false →
  let '(r, s', b') := Chat.handleSendMessage (Some uid) (Some cid) s b in
  r = Fulfilled tt ∧
  Firestore.log b' = Firestore.log b ++ [add; set] ∧
  Firestore.set_participants (Chat.summaryFields text) = None ∧
  (∃ mid,
     Firestore.messages b !! mid = None ∧
     Firestore.messages b'
     = <[mid := {| Firestore.conversationId := cid;
                   Firestore.senderId := uid;
                   Firestore.receiverId := Chat.OtherUser.id other;
                   Firestore.text := text;
                   Firestore.read := false;
                   Firestore.createdAt := Firestore.clock b |}]>
         (Firestore.messages b)) ∧
  (∃ d',
     Firestore.conversations b' !! cid = Some d' ∧
     Firestore.lastMessage d' = Some text ∧
     Firestore.lastMessageTime d' = Some (S (Firestore.clock b)) ∧
     Firestore.participants d'
     = Firestore.conversations b !! cid ≫= Firestore.participants) ∧
  (∀ c, c ≠ cid →
        Firestore.conversations b' !! c = Firestore.conversations b !! c) ∧
  Firestore.users b' = Firestore.users b.
Proof.
  intros text add set Ho Ht Hc F1 F2.
  destruct (handleSendMessage_sent (Some uid) (Some cid) s b)
    as (s' & b' & -> & S).
  split; [done |].
  destruct S as [G | | |]; simplify_eq; subst_lets.
  - exfalso. destruct G as [G | [G | [G | [G | G]]]]; congruence.
  - congruence.
  - congruence.
  - cbn -[fresh]. split_and!; try done.
    + by rewrite <- app_assoc.
    + eexists. split; [apply appended_fresh | done].
    + eexists. rewrite lookup_insert_eq. split; [done |].
      split_and!; try done. by destruct (Firestore.conversations b !! _).
    + intros c Hne. by rewrite lookup_insert_ne.
Qed.

Lemma send_appends_then_upserts_witness :
  let out := Chat.handleSendMessage (Some "alice") (Some "c1")
               (typing " see you ") Scenario.backend in
  Firestore.log out.2
  = [Firestore.AddMessage (Chat.messageFields "c1" "alice" "bob" "see you");
     Firestore.SetConversationMerge "c1" (Chat.summaryFields "see you")] ∧
  Firestore.conversations out.2 !! "c1"
  = Some {| Firestore.participants := Some ["alice"; "bob"];
            Firestore.lastMessage := Some "see you";
            Firestore.lastMessageTime := Some 4 |} ∧
  Firestore.users out.2 = Firestore.users Scenario.backend.
Proof.
  intros out.
  pose proof (send_appends_then_upserts "alice" "c1"
                {| Chat.OtherUser.id := "bob"; Chat.OtherUser.username := "Bob";
                   Chat.OtherUser.avatarUrl := "" |}
                (typing " see you ") Scenario.backend) as H.
  cbv zeta in H.
  change (Chat.handleSendMessage _ _ _ _) with out in H.
  destruct out as [[r s'] b'] eqn:E. cbn [fst snd].
  destruct H as (_ & Hl & _ & _ & _ & _ & Hu);
    [done | by vm_compute | done | done | done |].
  split; [exact Hl |]. split; [| exact Hu].
  apply (f_equal (λ o, Firestore.conversations o.2 !! "c1")) in E.
  cbn [snd] in E. rewrite <- E. by vm_compute.
Defined.

(** C9. The draft is cleared only by a send whose two writes have both
    been issued and let through, in order: whenever a send changes the
    draft, the page held a signed-in actor, another participant and a
    conversation, the log has grown by the append followed by the upsert,
    neither was rejected, and both are committed. Conversely, when the
    append or the upsert rejects, the draft is left as it was. *)
Theorem draft_survives_failed_send user conversationId s b :
  let '(r, s', b') := Chat.handleSendMessage user conversationId s b in
  r = Fulfilled tt ∧
  (Chat.newMessage s' ≠ Chat.newMessage s →
   ∃ uid other cid,
     user = Some uid ∧ Chat.otherUser s = Some other ∧
     conversationId = Some cid ∧
     let text := trim (Chat.newMessage s) in
     let add := Chat.messageFields cid uid (Chat.OtherUser.id other) text in
     let set := Chat.summaryFields text in
     Firestore.faults b (Firestore.log b) (Firestore.AddMessage add) = false ∧
     Firestore.faults b (Firestore.log b ++ [Firestore.AddMessage add])
       (Firestore.SetConversationMerge cid set) = false ∧
     Firestore.log b'
     = Firestore.log b ++ [Firestore.AddMessage add;
                           Firestore.SetConversationMerge cid set] ∧
     b' = upserted cid set (appended add b) ∧
     Chat.newMessage s' = "") ∧
  (∀ uid other cid,
     user = Some uid → Chat.otherUser s = Some other →
     conversationId = Some cid →
     let text := trim (Chat.newMessage s) in
     let add := Chat.messageFields cid uid (Chat.OtherUser.id other) text in
     let set := Chat.summaryFields text in
     Firestore.faults b (Firestore.log b) (Firestore.AddMessage add) = true ∨
     Firestore.faults b (Firestore.log b ++ [Firestore.AddMessage add])
       (Firestore.SetConversationMerge cid set) = true →
     Chat.newMessage s' = Chat.newMessage s).
Proof.
  destruct (handleSendMessage_sent user conversationId s b)
    as (s' & b' & -> & S).
  split; [done |]. split.
  - intros Hne. destruct S as [G | | |uid other cid]; try done.
    exists uid, other, cid. subst_lets. split_and!; try done.
    cbn. by rewrite <- app_assoc.
  - intros uid other cid -> Ho -> text add set Hf.
    destruct S; try done. simplify_eq. subst_lets.
    destruct Hf; congruence.
Qed.

Lemma draft_survives_failed_send_witness :
  let out := Chat.handleSendMessage (Some "alice") (Some "c1")
               (typing " see you ") Scenario.readOnly in
  Chat.newMessage out.1.2 = " see you ".
Proof.
  intros out.
  pose proof (draft_survives_failed_send (Some "alice") (Some "c1")
                (typing " see you ") Scenario.readOnly) as H.
  change (Chat.handleSendMessage _ _ _ _) with out in H.
  destruct out as [[r s'] b']. cbn [fst snd].
  destruct H as (_ & _ & H).
  by rewrite (H "alice"
                {| Chat.OtherUser.id := "bob"; Chat.OtherUser.username := "Bob";
                   Chat.OtherUser.avatarUrl := "" |} "c1");
    [| | | | left].
Defined.

(** ** The thread handler *)

Lemma elem_of_unreadMessages uid snapshot msg :
  msg ∈ Chat.unreadMessages uid (map Chat.asMessage snapshot) ↔
  ∃ d, d ∈ snapshot ∧ unread_for uid d ∧ msg = Chat.asMessage d.
Proof.
  unfold Chat.unreadMessages, unread_for.
  rewrite list_elem_of_filter, list_elem_of_In, in_map_iff, andb_True,
    bool_decide_spec, negb_True, Is_true_false. split.
  - intros ([Hr Hu] & d & <- & Hd%list_elem_of_In). exists d. by repeat split.
  - intros (d & Hd%list_elem_of_In & [Hr Hu] & ->). split; [done | by exists d].
Qed.

Lemma unreadMessages_nil uid snapshot :
  (∀ d, d ∈ snapshot → Firestore.receiverId d.2 = uid →
        Firestore.read d.2 = true) →
  Chat.unreadMessages uid (map Chat.asMessage snapshot) = [].
Proof.
  intros H. apply elem_of_nil_inv. intros msg Hm.
  apply elem_of_unreadMessages in Hm as (d & Hd & [Hr Hu] & _).
  rewrite (H d Hd Hr) in Hu. done.
Qed.

Lemma onMessagesSnapshot_spec uid snapshot s b :
  ∃ r k b',
    Chat.onMessagesSnapshot uid snapshot s b
      = (r, holding s (map Chat.asMessage snapshot), b') ∧
    Firestore.users b' = Firestore.users b ∧
    Firestore.conversations b' = Firestore.conversations b ∧
    Firestore.log b'
    = Firestore.log b
      ++ map markCall
           (take k (Chat.unreadMessages uid (map Chat.asMessage snapshot))) ∧
    marked (Firestore.messages b) (Firestore.messages b') ∧
    (r = Fulfilled tt →
     ∀ d, d ∈ snapshot → unread_for uid d →
          Firestore.read <$> Firestore.messages b' !! d.1 = Some true) ∧
    (no_faults b →
     (∀ d, d ∈ snapshot → is_Some (Firestore.messages b !! d.1)) →
     r = Fulfilled tt).
Proof.
  unfold Chat.onMessagesSnapshot, Chat.setMessages. async_unfold.
  destruct (mark_loop
              (Chat.unreadMessages uid (map Chat.asMessage snapshot))
              (holding s (map Chat.asMessage snapshot)) b)
    as (r & k & b' & E & Eu & Ec & _ & El & Hm & Hr & Ht).
  exists r, k, b'. split_and!; try done.
  - intros Hf d Hd Hu.
    apply (Hr Hf (Chat.asMessage d)), elem_of_unreadMessages. by exists d.
  - intros Hno Hall. apply Ht; [done |]. intros msg Hm'.
    apply elem_of_unreadMessages in Hm' as (d & Hd & _ & ->). by apply Hall.
Qed.

(** C7. When every message of the snapshot that is addressed to the
    opening actor is already read, the thread handler runs to its end
    without issuing a call: the database, log included, is exactly as
    before. Running it again from the result is therefore the same run,
    and re-opening a fully read thread changes nothing in the message
    store. *)
Theorem read_thread_issues_nothing uid snapshot s b :
  (∀ d, d ∈ snapshot → Firestore.receiverId d.2 = uid →
        Firestore.read d.2 = true) →
  Chat.onMessagesSnapshot uid snapshot s b
  = (Fulfilled tt, holding s (map Chat.asMessage snapshot), b) ∧
  Chat.onMessagesSnapshot uid snapshot
    (holding s (map Chat.asMessage snapshot)) b
  = (Fulfilled tt, holding s (map Chat.asMessage snapshot), b).
Proof.
  intros H. unfold Chat.onMessagesSnapshot, Chat.setMessages. async_unfold.
  by rewrite (unreadMessages_nil uid snapshot H).
Qed.

Lemma read_thread_issues_nothing_witness :
  let out := Chat.onMessagesSnapshot "alice"
               [("m0", Scenario.m0); ("m2", Scenario.m2)]
               Chat.initial Scenario.backend in
  out.1.1 = Fulfilled tt ∧ out.2 = Scenario.backend.
Proof.
  intros out.
  destruct (read_thread_issues_nothing "alice"
              [("m0", Scenario.m0); ("m2", Scenario.m2)]
              Chat.initial Scenario.backend) as [H _].
  - intros d [->|[->|Hd%elem_of_nil]%elem_of_cons]%elem_of_cons; by vm_compute.
  - subst out. by rewrite H.
Defined.

(** ** Read flags never go back *)

Lemma read_monotone_refl m : read_monotone m m.
Proof. intros i d Hd. by left. Qed.

Lemma read_monotone_trans m1 m2 m3 :
  read_monotone m1 m2 → read_monotone m2 m3 → read_monotone m1 m3.
Proof.
  intros H12 H23 i d Hd. destruct (H12 i d Hd) as [E|E].
  - by apply H23.
  - destruct (H23 i _ E) as [E'|E']; right; [done |].
    by rewrite <- markRead_idemp.
Qed.

Lemma read_monotone_fresh m d' :
  read_monotone m (<[fresh (dom m) := d']> m).
Proof.
  intros i d Hd. left. rewrite lookup_insert_ne; [done |].
  intros <-. pose proof (is_fresh (dom m)) as Hf.
  by apply not_elem_of_dom in Hf; simplify_eq.
Qed.

Lemma client_step_read_monotone b b' :
  client_step b b' →
  read_monotone (Firestore.messages b) (Firestore.messages b').
Proof.
  destruct 1 as [uid snapshot s b|uid cid s b|uid snapshot s b|user cid s b].
  - destruct (onConversationsSnapshot_cases uid snapshot s b)
      as (issued & b' & (_ & _ & Em & _) & _ & _ & [[e ->] | (es & -> & _)]);
      cbn [snd]; rewrite Em; apply read_monotone_refl.
  - destruct (loadConversation_loaded uid cid s b)
      as (s' & issued & b' & -> & _ & (_ & _ & Em & _) & _).
    cbn [snd]. rewrite Em. apply read_monotone_refl.
  - destruct (onMessagesSnapshot_spec uid snapshot s b)
      as (r & k & b' & -> & _ & _ & _ & Hm & _).
    cbn [snd]. by apply marked_read_monotone.
  - destruct (handleSendMessage_sent user cid s b) as (s' & b' & -> & S).
    cbn [snd]. destruct S; subst_lets; cbn -[fresh];
      try apply read_monotone_refl; apply read_monotone_fresh.
Qed.

Lemma client_steps_read_monotone b b' :
  rtc client_step b b' →
  read_monotone (Firestore.messages b) (Firestore.messages b').
Proof.
  induction 1 as [b|b1 b2 b3 H12 _ IH]; [apply read_monotone_refl |].
  eapply read_monotone_trans; [by apply client_step_read_monotone | done].
Qed.

Lemma read_monotone_read m m' i d :
  read_monotone m m' → m !! i = Some d → Firestore.read d = true →
  Firestore.read <$> m' !! i = Some true.
Proof.
  intros H Hd Hr. destruct (H i d Hd) as [E|E]; rewrite E; cbn; by f_equal.
Qed.

(** C2. What the Thread Synchronizer does with a snapshot observed by
    actor [uid]:
    - when the handler runs to its end, every message of the snapshot with
      [receiverId = uid] and [read = false] has [read = true] in the
      message store, and it does run to its end when no call rejects and
      the messages of the snapshot are in the store;
    - the calls it issues are updates with the single field [read: true],
      each for a message of the snapshot whose receiver is [uid] and which
      was unread;
    - no run of any callback of the two pages, and no sequence of such
      runs, takes a stored message whose read flag is [true] to a store
      where it is missing or its flag is [false]. *)
Theorem thread_marks_read uid snapshot s b :
  let '(r, s', b') := Chat.onMessagesSnapshot uid snapshot s b in
  (r = Fulfilled tt →
   ∀ d, d ∈ snapshot →
        Firestore.receiverId d.2 = uid → Firestore.read d.2 = false →
        Firestore.read <$> Firestore.messages b' !! d.1 = Some true) ∧
  (no_faults b →
   (∀ d, d ∈ snapshot → is_Some (Firestore.messages b !! d.1)) →
   r = Fulfilled tt) ∧
  (∃ issued,
     Firestore.log b' = Firestore.log b ++ issued ∧
     ∀ c, c ∈ issued →
          ∃ d, d ∈ snapshot ∧
               Firestore.receiverId d.2 = uid ∧ Firestore.read d.2 = false ∧
               c = Firestore.UpdateMessage d.1 Chat.readTrue ∧
               Firestore.upd_read Chat.readTrue = Some true) ∧
  ∀ b1 b2 i d,
    rtc client_step b1 b2 →
    Firestore.messages b1 !! i = Some d → Firestore.read d = true →
    Firestore.read <$> Firestore.messages b2 !! i = Some true.
Proof.
  destruct (onMessagesSnapshot_spec uid snapshot s b)
    as (r & k & b' & -> & _ & _ & El & Hm & Hr & Ht).
  split_and!.
  - intros Hf d Hd Hu1 Hu2. by apply Hr.
  - done.
  - eexists. split; [exact El |]. intros c Hc.
    apply list_elem_of_In, in_map_iff in Hc as (msg & <- & Hin).
    apply list_elem_of_In, subseteq_take, elem_of_unreadMessages in Hin
      as (d & Hd & [Hu1 Hu2] & ->).
    by exists d.
  - intros b1 b2 i d Hs Hd Hread.
    eapply read_monotone_read; [by apply client_steps_read_monotone | done..].
Qed.

Lemma thread_marks_read_witness :
  let out := Chat.onMessagesSnapshot "alice" Scenario.thread Chat.initial
               Scenario.backend in
  out.1.1 = Fulfilled tt ∧
  Firestore.read <$> Firestore.messages out.2 !! "m1" = Some true ∧
  Firestore.read <$> Firestore.messages out.2 !! "m0" = Some true ∧
  Firestore.log out.2 = [Firestore.UpdateMessage "m1" Chat.readTrue].
Proof.
  intros out.
  pose proof (thread_marks_read "alice" Scenario.thread Chat.initial
                Scenario.backend) as H.
  change (Chat.onMessagesSnapshot _ _ _ _) with out in H.
  assert (Firestore.log out.2 = [Firestore.UpdateMessage "m1" Chat.readTrue])
    as Hlog by (by vm_compute).
  assert (client_step Scenario.backend out.2) as Hstep by apply step_thread.
  destruct out as [[r s'] b']. cbn [fst snd] in *.
  destruct H as (Hr & Ht & _ & Hm).
  assert (r = Fulfilled tt) as ->.
  { apply Ht; [done |].
    intros d [->|[->|[->|Hd%elem_of_nil]%elem_of_cons]%elem_of_cons]%elem_of_cons;
      try done; vm_compute; by eexists. }
  split_and!; try done.
  - apply (Hr eq_refl ("m1", Scenario.m1)); [by right; left | done | done].
  - apply (Hm Scenario.backend b' "m0" Scenario.m0);
      [by apply rtc_once | by vm_compute | done].
Defined.

(** * Further properties of the pages *)

(** ** Relative times *)

(** X1. The label of a timestamp counts whole units of the elapsed
    milliseconds: nothing for a value without [toDate]; "just now" below
    one minute, also for a timestamp ahead of the clock; then whole
    minutes from 1 to 59, whole hours from 1 to 23, whole days from 1 to
    6, and whole weeks from 1 on. *)
Theorem getTimeAgo_label (now t : Z) :
  let d := (now - t)%Z in
  Messages.getTimeAgo now None = "" ∧
  ((d < 60000)%Z → Messages.getTimeAgo now (Some t) = "just now") ∧
  ((60000 ≤ d < 3600000)%Z →
   Messages.getTimeAgo now (Some t) = pretty (d `div` 60000)%Z +:+ "m" ∧
   (1 ≤ d `div` 60000 ≤ 59)%Z) ∧
  ((3600000 ≤ d < 86400000)%Z →
   Messages.getTimeAgo now (Some t) = pretty (d `div` 3600000)%Z +:+ "h" ∧
   (1 ≤ d `div` 3600000 ≤ 23)%Z) ∧
  ((86400000 ≤ d < 604800000)%Z →
   Messages.getTimeAgo now (Some t) = pretty (d `div` 86400000)%Z +:+ "d" ∧
   (1 ≤ d `div` 86400000 ≤ 6)%Z) ∧
  ((604800000 ≤ d)%Z →
   Messages.getTimeAgo now (Some t) = pretty (d `div` 604800000)%Z +:+ "w" ∧
   (1 ≤ d `div` 604800000)%Z).
Proof.
  intros d. unfold Messages.getTimeAgo. fold d.
  assert (∀ k, (0 < k)%Z →
               ((d `div` 1000) `div` k = d `div` (1000 * k))%Z) as Hdd.
  { intros k Hk. by rewrite Z.div_div by lia. }
  split_and!; [done | intros H ..].
  - destruct (Z.ltb_spec (d `div` 1000) 60) as [_|Hc];
      [done |]. exfalso. Z.to_euclidean_division_equations. lia.
  - destruct (Z.ltb_spec (d `div` 1000) 60) as [Hc|_];
      [exfalso; Z.to_euclidean_division_equations; lia |].
    destruct (Z.ltb_spec (d `div` 1000) 3600) as [_|Hc];
      [| exfalso; Z.to_euclidean_division_equations; lia].
    rewrite Hdd by lia. change (1000 * 60)%Z with 60000%Z.
    split; [done |]. Z.to_euclidean_division_equations. lia.
  - destruct (Z.ltb_spec (d `div` 1000) 60) as [Hc|_];
      [exfalso; Z.to_euclidean_division_equations; lia |].
    destruct (Z.ltb_spec (d `div` 1000) 3600) as [Hc|_];
      [exfalso; Z.to_euclidean_division_equations; lia |].
    destruct (Z.ltb_spec (d `div` 1000) 86400) as [_|Hc];
      [| exfalso; Z.to_euclidean_division_equations; lia].
    rewrite Hdd by lia. change (1000 * 3600)%Z with 3600000%Z.
    split; [done |]. Z.to_euclidean_division_equations. lia.
  - destruct (Z.ltb_spec (d `div` 1000) 60) as [Hc|_];
      [exfalso; Z.to_euclidean_division_equations; lia |].
    destruct (Z.ltb_spec (d `div` 1000) 3600) as [Hc|_];
      [exfalso; Z.to_euclidean_division_equations; lia |].
    destruct (Z.ltb_spec (d `div` 1000) 86400) as [Hc|_];
      [exfalso; Z.to_euclidean_division_equations; lia |].
    destruct (Z.ltb_spec (d `div` 1000) 604800) as [_|Hc];
      [| exfalso; Z.to_euclidean_division_equations; lia].
    rewrite Hdd by lia. change (1000 * 86400)%Z with 86400000%Z.
    split; [done |]. Z.to_euclidean_division_equations. lia.
  - destruct (Z.ltb_spec (d `div` 1000) 60) as [Hc|_];
      [exfalso; Z.to_euclidean_division_equations; lia |].
    destruct (Z.ltb_spec (d `div` 1000) 3600) as [Hc|_];
      [exfalso; Z.to_euclidean_division_equations; lia |].
    destruct (Z.ltb_spec (d `div` 1000) 86400) as [Hc|_];
      [exfalso; Z.to_euclidean_division_equations; lia |].
    destruct (Z.ltb_spec (d `div` 1000) 604800) as [Hc|_];
      [exfalso; Z.to_euclidean_division_equations; lia |].
    rewrite Hdd by lia. change (1000 * 604800)%Z with 604800000%Z.
    split; [done |]. Z.to_euclidean_division_equations. lia.
Qed.

Lemma getTimeAgo_label_witness :
  Messages.getTimeAgo 7500000%Z (Some 100%Z) = "2h" ∧
  Messages.getTimeAgo 100%Z (Some 7500000%Z) = "just now".
Proof.
  destruct (getTimeAgo_label 7500000%Z 100%Z) as (_ & _ & _ & Hh & _).
  destruct (getTimeAgo_label 100%Z 7500000%Z) as (_ & Hn & _).
  split.
  - destruct Hh as [-> _]; [lia | by vm_compute].
  - apply Hn. lia.
Defined.

(** ** Trimming *)

Lemma trimStart_split s :
  ∃ pre, s = pre +:+ trimStart s ∧ all_white pre = true.
Proof.
  induction s as [|c s (pre & E & Hw)]; [by exists "" |].
  cbn [trimStart]. destruct (is_white c) eqn:Ec; [| by exists ""].
  exists (String c pre). rewrite append_cons, <- E. cbn. by rewrite Ec, Hw.
Qed.

Lemma trimStart_head s c r : trimStart s = String c r → is_white c = false.
Proof.
  induction s as [|a s IH]; [done |]. cbn [trimStart].
  destruct (is_white a) eqn:Ea; [done |]. by intros [= <- _].
Qed.

Lemma trimEnd_cons c s :
  trimEnd (String c s) =
  if is_white c && bool_decide (trimEnd s = "") then ""
  else String c (trimEnd s).
Proof.
  cbn [trimEnd]. destruct (trimEnd s); [| by rewrite andb_false_r].
  by destruct (is_white c).
Qed.

Lemma trimEnd_split s :
  ∃ post, s = trimEnd s +:+ post ∧ all_white post = true.
Proof.
  induction s as [|c s (post & E & Hw)]; [by exists "" |].
  rewrite trimEnd_cons. destruct (is_white c) eqn:Ec; cbn [andb].
  - case_bool_decide as Ht.
    + exists (String c post). rewrite Ht in E. split; [by rewrite E at 1 |].
      cbn. by rewrite Ec, Hw.
    + exists post. by rewrite append_cons, <- E.
  - exists post. by rewrite append_cons, <- E.
Qed.

Lemma trimEnd_head s c r :
  is_white c = false → s = String c r → ∃ r', trimEnd s = String c r'.
Proof. intros Hc ->. rewrite trimEnd_cons, Hc. by eexists. Qed.

Lemma trimEnd_last s r c : trimEnd s = r +:+ String c "" → is_white c = false.
Proof.
  revert r. induction s as [|a s IH]; intros r.
  - by destruct r.
  - rewrite trimEnd_cons. destruct (is_white a) eqn:Ea; cbn [andb].
    + case_bool_decide as Ht; [by destruct r |].
      destruct r as [|b r]; [| rewrite append_cons; intros [= _ E]; eauto].
      rewrite append_nil. intros [= _ E]. done.
    + destruct r as [|b r]; [| rewrite append_cons; intros [= _ E]; eauto].
      rewrite append_nil. by intros [= <- _].
Qed.

Lemma trimEnd_idemp s : trimEnd (trimEnd s) = trimEnd s.
Proof.
  induction s as [|c s IH]; [done |].
  rewrite trimEnd_cons. destruct (is_white c && _) eqn:E; [done |].
  rewrite trimEnd_cons, IH, E. done.
Qed.

Lemma trimStart_trimmed s :
  (∀ c r, s = String c r → is_white c = false) → trimStart s = s.
Proof.
  destruct s as [|c r]; [done |]. intros H. cbn. by rewrite (H c r).
Qed.

Lemma trim_trimmed s : trimmed (trim s).
Proof.
  unfold trim. split.
  - intros c r E. destruct (trimStart s) as [|a u] eqn:Es; [done |].
    pose proof (trimStart_head _ _ _ Es) as Ha.
    destruct (trimEnd_head (String a u) a u Ha eq_refl) as [r' E'].
    rewrite E' in E. by injection E as <- _.
  - intros r c E. by eapply trimEnd_last.
Qed.

(** What [trim] removes and what it leaves: the string is the trimmed
    string between a prefix and a suffix of white space; the trimmed
    string neither starts nor ends with white space; it is empty exactly
    when the string is white space only; and trimming twice is trimming
    once. *)
Lemma trim_spec s :
  (∃ pre post, s = pre +:+ trim s +:+ post ∧
               all_white pre = true ∧ all_white post = true) ∧
  trimmed (trim s) ∧
  (trim s = "" ↔ all_white s = true) ∧
  trim (trim s) = trim s.
Proof.
  assert (∀ a b, all_white (a +:+ b) = all_white a && all_white b) as Happ.
  { intros a b. induction a as [|c a IH]; [done |].
    rewrite append_cons. cbn. by rewrite IH, andb_assoc. }
  destruct (trimStart_split s) as (pre & E1 & Hpre).
  destruct (trimEnd_split (trimStart s)) as (post & E2 & Hpost).
  pose proof (trim_trimmed s) as Ht.
  split_and!.
  - exists pre, post. unfold trim. by rewrite <- E2.
  - done.
  - split.
    + intros Et. unfold trim in Et. rewrite Et, append_nil in E2.
      by rewrite E1, Happ, Hpre, E2, Hpost.
    + intros Hw. destruct (trim s) as [|c r] eqn:Et; [done |].
      destruct Ht as [Hh _]. specialize (Hh c r eq_refl).
      unfold trim in Et. rewrite E1, E2, Et, !Happ in Hw.
      cbn in Hw. rewrite Hh in Hw. by rewrite !andb_false_r in Hw.
  - unfold trim at 1 3. rewrite (trimStart_trimmed (trim s)) by apply Ht.
    unfold trim. apply trimEnd_idemp.
Qed.

(** ** What a send issues *)

(** X2. A send issues nothing, the append alone, or the append followed
    by the upsert, and never anything else: in particular it never updates
    or reads a record. The text of the append is the trimmed draft: it is
    not empty and neither starts nor ends with white space; the message is
    created unread, from the actor to the other participant of the page,
    stamped by the server; the upsert carries the same text. *)
Theorem send_calls user conversationId s b :
  let '(r, s', b') := Chat.handleSendMessage user conversationId s b in
  Firestore.log b' = Firestore.log b ∨
  ∃ uid other cid,
    user = Some uid ∧ Chat.otherUser s = Some other ∧
    conversationId = Some cid ∧
    let text := trim (Chat.newMessage s) in
    let add := Firestore.AddMessage
                 {| Firestore.new_conversationId := cid;
                    Firestore.new_senderId := uid;
                    Firestore.new_receiverId := Chat.OtherUser.id other;
                    Firestore.new_text := text;
                    Firestore.new_read := false;
                    Firestore.new_createdAt := Firestore.ServerTimestamp |} in
    let set := Firestore.SetConversationMerge cid
                 {| Firestore.set_participants := None;
                    Firestore.set_lastMessage := Some text;
                    Firestore.set_lastMessageTime :=
                      Some Firestore.ServerTimestamp |} in
    text ≠ "" ∧ trimmed text ∧ cid ≠ "" ∧
    (Firestore.log b' = Firestore.log b ++ [add] ∨
     Firestore.log b' = Firestore.log b ++ [add; set]).
Proof.
  destruct (handleSendMessage_sent user conversationId s b)
    as (s' & b' & -> & S).
  destruct S as [G|uid other cid|uid other cid|uid other cid]; [by left |..];
    right; exists uid, other, cid; subst_lets; cbv zeta;
    split_and!; try done; try apply trim_trimmed.
  - by left.
  - right. cbn. by rewrite <- app_assoc.
  - right. cbn. by rewrite <- app_assoc.
Qed.

(** ** Searching the inbox *)

Lemma contains_nocase_narrow name pre term post :
  contains_nocase name (pre +:+ term +:+ post) → contains_nocase name term.
Proof.
  intros (a & sub & c & -> & E).
  rewrite !lowerASCII_app in E.
  destruct (lowerASCII_split _ _ _ E) as (p' & rest & -> & _ & E').
  destruct (lowerASCII_split _ _ _ E') as (t' & q' & -> & Et & _).
  exists (a +:+ p'), t', (q' +:+ c). split; [| done].
  assert (∀ x y z, (x +:+ y) +:+ z = x +:+ y +:+ z) as Hassoc.
  { intros x y z. induction x as [|ch x IH]; [done |].
    by rewrite !append_cons, IH. }
  by rewrite !Hassoc.
Qed.

(** X3. An empty search string keeps every resolved entry. For display
    names and search strings of ASCII characters, a longer search string
    only narrows the list: the entries kept for a search string that
    contains [term] are, in order, among the entries kept for [term].
    Lower-casing is that of the Unicode standard over character data that
    has Basic Latin right. *)
Theorem search_narrows (d : Unicode.Data) (s s' : Messages.State) pre post :
  Messages.conversations s' = Messages.conversations s →
  (Messages.searchTerm s = "" →
   Messages.filteredConversations (H := Unicode.js d) s
   = Messages.conversations s) ∧
  (Unicode.basic_latin d →
   Forall (λ conv, is_ascii (Messages.otherUserName conv) = true)
          (Messages.conversations s) →
   is_ascii (Messages.searchTerm s') = true →
   Messages.searchTerm s' = pre +:+ Messages.searchTerm s +:+ post →
   sublist (Messages.filteredConversations (H := Unicode.js d) s')
           (Messages.filteredConversations (H := Unicode.js d) s)).
Proof.
  intros Ec. unfold Messages.filteredConversations. split.
  - intros ->. clear Ec. cbn [toLowerCase Unicode.js].
    change (Unicode.toLower d "") with "".
    induction (Messages.conversations s) as [|conv l IH]; [done |].
    rewrite filter_cons_True; [by rewrite IH |].
    apply Is_true_true, includes_contains.
    by exists "", (Unicode.toLower d (Messages.otherUserName conv)).
  - intros Hd Hnames Ht' Et. rewrite Ec.
    assert (is_ascii (Messages.searchTerm s) = true) as Ht.
    { rewrite Et, !is_ascii_app in Ht'.
      by apply andb_true_iff in Ht' as [_ [? _]%andb_true_iff]. }
    cbn [toLowerCase Unicode.js].
    rewrite (toLower_ascii d (Messages.searchTerm s')),
      (toLower_ascii d (Messages.searchTerm s)) by done.
    rewrite Et. clear Ec Et Ht Ht'.
    induction Hnames as [|conv l Hn Hnames IH]; [done |].
    rewrite !filter_cons, !toLower_ascii by done.
    destruct (decide (Is_true (includes _ (lowerASCII (pre +:+ _ +:+ post)))))
      as [H1|H1].
    + rewrite decide_True; [by apply sublist_skip |].
      apply Is_true_true, includes_nocase.
      apply Is_true_true, includes_nocase in H1.
      by eapply contains_nocase_narrow.
    + case_decide; [by apply sublist_cons | done].
Qed.

Lemma search_narrows_witness :
  let bob := entryOf Scenario.backend "alice" ("c1", Scenario.c1)
               ["alice"; "bob"] "bob" in
  let carol := entryOf Scenario.backend "alice" ("c2", Scenario.c2)
                 ["carol"; "alice"] "carol" in
  let s term := {| Messages.conversations := [bob; carol];
                   Messages.loading := false; Messages.searchTerm := term |} in
  Messages.filteredConversations (H := Unicode.js Unicode.basic) (s "")
  = [bob; carol] ∧
  sublist (Messages.filteredConversations (H := Unicode.js Unicode.basic)
             (s "kno"))
          (Messages.filteredConversations (H := Unicode.js Unicode.basic)
             (s "n")).
Proof.
  intros bob carol s. split.
  - by apply (search_narrows Unicode.basic (s "") (s "") "" "").
  - apply (search_narrows Unicode.basic (s "n") (s "kno") "k" "o");
      [done | apply basic_latin_basic | by repeat constructor | done | done].
Defined.

(** ** Entries and rows of the inbox *)

Lemma emitted_entries uid snapshot s b s' b' e :
  Messages.onConversationsSnapshot uid snapshot s b = (Fulfilled tt, s', b') →
  e ∈ Messages.conversations s' →
  ∃ cd, cd ∈ snapshot ∧ resolves_to b uid cd e.
Proof.
  intros E He.
  destruct (onConversationsSnapshot_cases uid snapshot s b)
    as (issued & b1 & _ & _ & _ & [[err E1] | (es & E1 & P)]);
    rewrite E1 in E; [done |].
  injection E as <- <-. cbn in He.
  destruct (proj1 (list_elem_of_lookup _ _) He) as [i Hi].
  destruct (Forall2_lookup_r _ _ _ _ _ P Hi) as (cd & Hcd & R).
  exists cd. split; [| done]. by eapply list_elem_of_lookup_2.
Qed.

Lemma or_else_nonempty o d : d ≠ "" → or_else o d ≠ "".
Proof.
  intros Hd. unfold or_else. destruct o as [[|c r]|]; cbn; done.
Qed.

(** X4. Every entry the Conversation Index emits is well formed: it
    carries the participants of its conversation document; its other
    participant is one of them and is not the actor; its display name is
    never empty, so a row without an avatar image always has an initial to
    show; and its row links to the thread of the conversation. *)
Theorem emitted_entry_well_formed uid snapshot s b s' b' e now :
  Messages.onConversationsSnapshot uid snapshot s b = (Fulfilled tt, s', b') →
  e ∈ Messages.conversations s' →
  (∃ data, (Messages.id e, data) ∈ snapshot ∧
           Firestore.participants data = Some (Messages.participants e)) ∧
  Messages.otherUserId e ∈ Messages.participants e ∧
  Messages.otherUserId e ≠ uid ∧
  Messages.otherUserName e ≠ "" ∧
  Messages.avatar e ≠ Messages.AvatarInitial None ∧
  Messages.to (Messages.row now e) = "/chat/" +:+ Messages.id e ∧
  Messages.row_preview (Messages.row now e) ≠ "".
Proof.
  intros E He.
  destruct (emitted_entries _ _ _ _ _ _ _ E He)
    as ([cid data] & Hcd & l & oid & h & h' & Hl & Ho & _ & _ & ->).
  destruct (otherParticipant_Some uid l oid Ho) as [Hin Hne].
  assert (Messages.otherUserName (entryOf b uid (cid, data) l oid) ≠ "") as Hn
    by (by apply or_else_nonempty).
  split_and!; try done.
  - by exists data.
  - unfold Messages.avatar. destruct (truthy _); [done |].
    by destruct (Messages.otherUserName _).
  - by apply or_else_nonempty.
Qed.

Lemma emitted_entry_well_formed_witness :
  let out := Messages.onConversationsSnapshot "alice" Scenario.inbox
               Messages.initial Scenario.backend in
  map Messages.avatar (Messages.conversations out.1.2)
  = [Messages.AvatarInitial (Some "B"%char);
     Messages.AvatarInitial (Some "U"%char)] ∧
  ∀ e, e ∈ Messages.conversations out.1.2 →
       Messages.otherUserId e ≠ "alice" ∧ Messages.otherUserName e ≠ "".
Proof.
  intros out. split; [by vm_compute |]. intros e He.
  destruct (emitted_entry_well_formed "alice" Scenario.inbox Messages.initial
              Scenario.backend out.1.2 out.2 e 0%Z)
    as (_ & _ & H1 & H2 & _); [by vm_compute | done | done].
Defined.

Lemma unread_pos store A C :
  (0 < unread store A C)%nat ↔
  ∃ i d, store !! i = Some d ∧ Firestore.conversationId d = C ∧
         Firestore.receiverId d = A ∧ Firestore.read d = false.
Proof.
  unfold unread. split.
  - intros H. assert (size (filter (λ kv : string * Firestore.MessageDoc,
                 Firestore.conversationId kv.2 = C ∧
                 Firestore.receiverId kv.2 = A ∧
                 Firestore.read kv.2 = false) store) ≠ 0) as Hs by lia.
    apply map_size_ne_0_lookup in Hs as (i & d & Hd).
    apply map_lookup_filter_Some in Hd as [Hd Hp]. by exists i, d.
  - intros (i & d & Hd & Hp).
    assert (size (filter (λ kv : string * Firestore.MessageDoc,
                 Firestore.conversationId kv.2 = C ∧
                 Firestore.receiverId kv.2 = A ∧
                 Firestore.read kv.2 = false) store) ≠ 0); [| lia].
    apply map_size_ne_0_lookup. exists i, d.
    by apply map_lookup_filter_Some.
Qed.

Lemma emitted_unread_count uid snapshot s b s' b' :
  Messages.onConversationsSnapshot uid snapshot s b = (Fulfilled tt, s', b') →
  Firestore.messages b' = Firestore.messages b ∧
  ∀ e, e ∈ Messages.conversations s' →
       Messages.unreadCount e
       = unread (Firestore.messages b) uid (Messages.id e).
Proof.
  intros E.
  destruct (onConversationsSnapshot_cases uid snapshot s b)
    as (issued & b1 & S & _ & _ & [[err E1] | (es & E1 & P)]);
    rewrite E1 in E; [done |].
  injection E as <- <-. split; [apply S |].
  intros e He. cbn in He.
  destruct (proj1 (list_elem_of_lookup _ _) He) as [i Hi].
  destruct (Forall2_lookup_r _ _ _ _ _ P Hi)
    as (cd & _ & l & oid & h & h' & _ & _ & _ & _ & ->).
  cbn. apply unreadDocs_length.
Qed.

(** X5. The unread badge of an emitted entry follows the message store:
    the row is highlighted and shows a badge exactly when the store holds
    a message of that conversation addressed to the actor and not read;
    the badge is the count in decimal up to nine and "9+" beyond, so it
    never takes more than two characters. *)
Theorem badge_follows_store uid snapshot s b s' b' e now :
  Messages.onConversationsSnapshot uid snapshot s b = (Fulfilled tt, s', b') →
  e ∈ Messages.conversations s' →
  let n := unread (Firestore.messages b) uid (Messages.id e) in
  let r := Messages.row now e in
  (Messages.row_highlighted r = true ↔ is_Some (Messages.row_badge r)) ∧
  (is_Some (Messages.row_badge r) ↔
   ∃ i d, Firestore.messages b !! i = Some d ∧
          Firestore.conversationId d = Messages.id e ∧
          Firestore.receiverId d = uid ∧ Firestore.read d = false) ∧
  ((1 ≤ n ≤ 9)%nat → Messages.row_badge r = Some (pretty n)) ∧
  ((9 < n)%nat → Messages.row_badge r = Some "9+") ∧
  (∀ t, Messages.row_badge r = Some t → (1 ≤ String.length t ≤ 2)%nat).
Proof.
  intros E He n r.
  destruct (emitted_unread_count uid snapshot s b s' b' E) as [_ Hc].
  pose proof (Hc e He) as Hn. fold n in Hn.
  subst r. unfold Messages.row, Messages.unreadBadge.
  cbn [Messages.row_highlighted Messages.row_badge]. rewrite Hn.
  assert (is_Some (if (0 <? n)%nat
                   then Some (if (9 <? n)%nat then "9+" else pretty n)
                   else None) ↔ (0 < n)%nat) as Hb.
  { destruct (Nat.ltb_spec 0 n); split; intros H'; try done; try lia;
      by destruct H'. }
  split_and!.
  - rewrite Hb. apply Nat.ltb_lt.
  - rewrite Hb. apply unread_pos.
  - intros [H1 H9]. destruct (Nat.ltb_spec 0 n); [| lia].
    by destruct (Nat.ltb_spec 9 n); [lia |].
  - intros H9. destruct (Nat.ltb_spec 0 n); [| lia].
    by destruct (Nat.ltb_spec 9 n); [| lia].
  - intros t. destruct (Nat.ltb_spec 0 n); [| done].
    destruct (Nat.ltb_spec 9 n); intros [= <-]; [cbn; lia |].
    assert (n ∈ seq 1 9) as Hin by (apply elem_of_seq; lia).
    clear -Hin. cbn in Hin.
    repeat (apply elem_of_cons in Hin as [->|Hin]; [vm_compute; lia |]).
    by apply elem_of_nil in Hin.
Qed.

Lemma badge_follows_store_witness :
  let out := Messages.onConversationsSnapshot "alice" Scenario.inbox
               Messages.initial Scenario.backend in
  map (λ e, Messages.row_badge (Messages.row 0%Z e))
      (Messages.conversations out.1.2) = [Some "1"; None] ∧
  ∀ e, e ∈ Messages.conversations out.1.2 →
       ∀ t, Messages.row_badge (Messages.row 0%Z e) = Some t →
            (1 ≤ String.length t ≤ 2)%nat.
Proof.
  intros out. split; [by vm_compute |]. intros e He.
  destruct (badge_follows_store "alice" Scenario.inbox Messages.initial
              Scenario.backend out.1.2 out.2 e 0%Z)
    as (_ & _ & _ & _ & H); [by vm_compute | done | done].
Defined.

(** ** The reads of the inbox and of an opening thread *)

Lemma promise_all_calls uid snapshot s b :
  ∃ r issued b',
    promise_all (map (Messages.resolveConversation uid) snapshot) s b
      = (r, s, b') ∧
    Firestore.log b' = Firestore.log b ++ issued ∧
    (length issued ≤ 2 * length snapshot)%nat ∧
    (is_rejected r = false → length issued = (2 * length snapshot)%nat).
Proof.
  revert b. induction snapshot as [|cd snapshot IH]; intros b.
  - exists (Fulfilled []), [], b. by rewrite app_nil_r.
  - destruct (resolveConversation_resolution uid cd s b)
      as (r1 & i1 & b1 & E1 & R1 & S1 & L1).
    destruct (IH b1) as (r2 & i2 & b2 & E2 & L2 & Hle & Heq).
    cbn [map promise_all]. rewrite E1, E2.
    eexists _, (i1 ++ i2), b2. split_and!; [done | | |].
    + by rewrite L2, L1, app_assoc.
    + rewrite length_app. cbn [length]. destruct R1; cbn [length]; lia.
    + rewrite length_app. cbn [length].
      destruct R1; try done. destruct r2; [| done]. intros _.
      rewrite Heq by done. cbn [length]. lia.
Qed.

(** X6. The Conversation Index only reads. Whether the join is fulfilled
    or rejected, the three stores and the server clock are as before, no
    issued call is a write, and at most two calls are issued per
    conversation of the snapshot: exactly two when the list is emitted.
    A rejected join leaves the page as it was. *)
Theorem inbox_only_reads uid snapshot s b :
  let '(r, s', b') := Messages.onConversationsSnapshot uid snapshot s b in
  same_stores b b' ∧
  (is_rejected r = true → s' = s) ∧
  ∃ issued,
    Firestore.log b' = Firestore.log b ++ issued ∧
    Forall (λ c, Firestore.is_write c = false) issued ∧
    (length issued ≤ 2 * length snapshot)%nat ∧
    (is_rejected r = false → length issued = (2 * length snapshot)%nat).
Proof.
  destruct (promise_all_calls uid snapshot s b)
    as (r & issued & b' & E & L & Hle & Heq).
  destruct (promise_all_resolution uid snapshot s b)
    as (r0 & issued0 & b0 & E0 & S0 & L0 & W0 & _).
  rewrite E in E0.
  assert (r0 = r ∧ b0 = b') as [Hr Hb] by (split; congruence).
  clear E0 Hr. rewrite Hb in S0, L0. clear Hb.
  rewrite L in L0. apply app_inv_head in L0. rewrite <- L0 in W0.
  unfold Messages.onConversationsSnapshot. async_unfold. rewrite E.
  destruct r as [es|e]; cbn; (split_and!; [done | done |]);
    exists issued; split_and!; done.
Qed.

Lemma inbox_only_reads_witness :
  let out := Messages.onConversationsSnapshot "alice" Scenario.inbox
               Messages.initial Scenario.profileDown in
  out.1.2 = Messages.initial ∧
  Firestore.messages out.2 = Firestore.messages Scenario.profileDown ∧
  (length (Firestore.log out.2) ≤ 4)%nat.
Proof.
  intros out.
  pose proof (inbox_only_reads "alice" Scenario.inbox Messages.initial
                Scenario.profileDown) as H.
  change (Messages.onConversationsSnapshot _ _ _ _) with out in H.
  assert (is_rejected out.1.1 = true) as Hr by (by vm_compute).
  destruct out as [[r s'] b']. cbn [fst snd] in *.
  destruct H as ((_ & _ & Hm & _) & Hs & issued & Hl & _ & Hlen & _).
  split_and!; [by apply Hs | done |]. rewrite Hl. cbn in *. lia.
Defined.

(** X7. When the inbox can be emitted. If the list is emitted, every
    conversation of the snapshot has a participants field naming someone
    other than the actor; so a single conversation without participants,
    or whose participants are all the actor, rejects the whole inbox.
    Conversely, when no call rejects and every conversation names someone
    else, the list is emitted. *)
Theorem inbox_emitted_iff uid snapshot s b :
  let named (cd : string * Firestore.ConversationDoc) :=
    ∃ l oid, Firestore.participants cd.2 = Some l ∧ oid ∈ l ∧ oid ≠ uid in
  let '(r, s', b') := Messages.onConversationsSnapshot uid snapshot s b in
  (is_rejected r = false → Forall named snapshot) ∧
  (no_faults b → Forall named snapshot → r = Fulfilled tt).
Proof.
  intros named.
  assert (no_faults b → Forall named snapshot →
          ∃ s' b', Messages.onConversationsSnapshot uid snapshot s b
                   = (Fulfilled tt, s', b')) as Hful.
  { intros Hno Hall. apply onConversationsSnapshot_fulfils; [done |].
    eapply Forall_impl; [exact Hall |].
    intros cd (l & oid & Hl & Hin & Hne).
    destruct (otherParticipant_is_Some uid l) as [o Ho]; [by exists oid |].
    by exists l, o. }
  destruct (onConversationsSnapshot_cases uid snapshot s b)
    as (issued & b' & _ & _ & _ & [[e E] | (es & E & P)]); rewrite E in *.
  - split; [done |]. intros Hno Hall.
    by destruct (Hful Hno Hall) as (? & ? & ?).
  - split; [| done].
    intros _. apply Forall_forall. intros cd Hcd.
    destruct (proj1 (list_elem_of_lookup _ _) Hcd) as [i Hi].
    destruct (Forall2_lookup_l _ _ _ _ _ P Hi)
      as (e & _ & l & oid & _ & _ & Hl & Ho & _).
    destruct (otherParticipant_Some uid l oid Ho). by exists l, oid.
Qed.

Lemma inbox_emitted_iff_witness :
  (Messages.onConversationsSnapshot "alice" Scenario.inbox Messages.initial
     Scenario.backend).1.1 = Fulfilled tt ∧
  is_rejected
    (Messages.onConversationsSnapshot "alice"
       (("c3", notesToSelf) :: Scenario.inbox) Messages.initial
       Scenario.backend).1.1 = true.
Proof.
  split.
  - pose proof (inbox_emitted_iff "alice" Scenario.inbox Messages.initial
                  Scenario.backend) as H. cbv zeta in H.
    destruct (Messages.onConversationsSnapshot _ _ _ _) as [[r s'] b'].
    apply H; [done |]. repeat constructor.
    + exists ["alice"; "bob"], "bob". split_and!; [done | by right; left | done].
    + exists ["carol"; "alice"], "carol". split_and!; [done | by left | done].
  - pose proof (inbox_emitted_iff "alice" (("c3", notesToSelf) :: Scenario.inbox)
                  Messages.initial Scenario.backend) as H. cbv zeta in H.
    destruct (Messages.onConversationsSnapshot _ _ _ _) as [[r s'] b'].
    destruct H as [H _]. cbn [fst]. destruct (is_rejected r) eqn:Er; [done |].
    specialize (H eq_refl). apply Forall_cons in H as [(l & oid & Hl & Hin & Hne) _].
    cbn in Hl. injection Hl as <-.
    apply list_elem_of_singleton in Hin. done.
Defined.

(** ** What the thread handler leaves alone *)

(** X8. The Thread Synchronizer changes read flags and nothing else.
    Whether it runs to its end or an update rejects on the way: users and
    conversations are as before; no message is added or removed; every
    message keeps its conversation, sender, receiver, text and creation
    time, and a read flag that was set stays set. The page holds the
    messages of the snapshot, in the snapshot's order, with the read flags
    the snapshot had; its other cells are untouched. *)
Theorem thread_changes_read_flags_only uid snapshot s b :
  let '(r, s', b') := Chat.onMessagesSnapshot uid snapshot s b in
  Firestore.users b' = Firestore.users b ∧
  Firestore.conversations b' = Firestore.conversations b ∧
  dom (Firestore.messages b') = dom (Firestore.messages b) ∧
  (∀ i d, Firestore.messages b !! i = Some d →
          ∃ d', Firestore.messages b' !! i = Some d' ∧ same_but_read d d') ∧
  Chat.messages s' = map Chat.asMessage snapshot ∧
  Chat.newMessage s' = Chat.newMessage s ∧
  Chat.otherUser s' = Chat.otherUser s ∧
  Chat.loading s' = Chat.loading s ∧
  Chat.toasts s' = Chat.toasts s.
Proof.
  destruct (onMessagesSnapshot_spec uid snapshot s b)
    as (r & k & b' & -> & Eu & Ec & _ & Hm & _).
  split_and!; try done.
  - apply set_eq. intros i. rewrite !elem_of_dom.
    destruct (Hm i) as [E|E]; rewrite E; [done |].
    by rewrite fmap_is_Some.
  - intros i d Hd. destruct (Hm i) as [E|E]; rewrite E, Hd.
    + exists d. by repeat split.
    + exists (markRead d). by repeat split.
Qed.

Lemma thread_changes_read_flags_only_witness :
  let out := Chat.onMessagesSnapshot "alice" Scenario.thread Chat.initial
               Scenario.readOnly in
  is_rejected out.1.1 = true ∧
  Firestore.messages out.2 !! "m1" = Some Scenario.m1 ∧
  dom (Firestore.messages out.2) = dom (Firestore.messages Scenario.readOnly).
Proof.
  intros out.
  pose proof (thread_changes_read_flags_only "alice" Scenario.thread
                Chat.initial Scenario.readOnly) as H.
  change (Chat.onMessagesSnapshot _ _ _ _) with out in H.
  assert (is_rejected out.1.1 = true) as Hr by (by vm_compute).
  assert (Firestore.messages out.2 !! "m1" = Some Scenario.m1) as Hm
    by (by vm_compute).
  destruct out as [[r s'] b']. cbn [fst snd] in *.
  by destruct H as (_ & _ & Hd & _).
Defined.

(** ** Unread counts across the pages *)

Lemma unread_zero store A C :
  unread store A C = 0 ↔
  ∀ i d, store !! i = Some d → Firestore.conversationId d = C →
         Firestore.receiverId d = A → Firestore.read d = true.
Proof.
  split.
  - intros H0 i d Hd Hc Hr. destruct (Firestore.read d) eqn:E; [done |].
    assert (0 < unread store A C)%nat; [| lia].
    apply unread_pos. by exists i, d.
  - intros H. destruct (unread store A C) as [|n] eqn:E; [done |].
    assert (0 < unread store A C)%nat as Hp by lia.
    apply unread_pos in Hp as (i & d & Hd & Hc & Hr & Hu).
    by rewrite (H i d Hd Hc Hr) in Hu.
Qed.

(** X9. Opening a thread empties its unread count. When the thread
    handler of actor [uid] runs to its end on a snapshot that holds every
    stored message of the conversation that is addressed to [uid] and not
    read, the store afterwards has no unread message of that conversation
    for [uid]: the count the inbox would attach to it is zero. *)
Theorem opening_thread_clears_unread uid cid snapshot s b :
  (∀ i d, Firestore.messages b !! i = Some d →
          Firestore.conversationId d = cid →
          Firestore.receiverId d = uid → Firestore.read d = false →
          (i, d) ∈ snapshot) →
  let '(r, s', b') := Chat.onMessagesSnapshot uid snapshot s b in
  r = Fulfilled tt → unread (Firestore.messages b') uid cid = 0.
Proof.
  intros Hcover.
  destruct (onMessagesSnapshot_spec uid snapshot s b)
    as (r & k & b' & -> & _ & _ & _ & Hm & Hr & _).
  intros Hf. apply unread_zero. intros i d' Hd' Hc Hrecv.
  destruct (Firestore.read d') eqn:Eread; [done |]. exfalso.
  destruct (Hm i) as [E|E]; rewrite Hd' in E.
  - symmetry in E.
    pose proof (Hr Hf (i, d') (Hcover i d' E Hc Hrecv Eread)) as Hread.
    cbn in Hread. rewrite Hd' in Hread. cbn in Hread. specialize (Hread (conj Hrecv Eread)).
    congruence.
  - destruct (Firestore.messages b !! i) as [d|]; [| done].
    injection E as ->. done.
Qed.

Lemma opening_thread_clears_unread_witness :
  unread (Firestore.messages Scenario.backend) "alice" "c1" = 1 ∧
  unread (Firestore.messages
            (Chat.onMessagesSnapshot "alice" Scenario.thread Chat.initial
               Scenario.backend).2) "alice" "c1" = 0.
Proof.
  split; [by vm_compute |].
  pose proof (opening_thread_clears_unread "alice" "c1" Scenario.thread
                Chat.initial Scenario.backend) as H.
  assert ((Chat.onMessagesSnapshot "alice" Scenario.thread Chat.initial
             Scenario.backend).1.1 = Fulfilled tt) as Hr by (by vm_compute).
  destruct (Chat.onMessagesSnapshot _ _ _ _) as [[r s'] b'].
  cbn [fst snd] in *. apply H; [| done].
  intros i d Hd _ _ _.
  assert (Firestore.messages Scenario.backend
          = list_to_map Scenario.thread) as Em by (by vm_compute).
  rewrite Em in Hd. by apply elem_of_list_to_map_2 in Hd.
Defined.

Lemma unread_insert_fresh store i d A C :
  store !! i = None →
  unread (<[i := d]> store) A C =
  if bool_decide (Firestore.conversationId d = C ∧
                  Firestore.receiverId d = A ∧ Firestore.read d = false)
  then S (unread store A C) else unread store A C.
Proof.
  intros Hi. unfold unread. case_bool_decide as Hp.
  - rewrite map_filter_insert_True by done.
    apply map_size_insert_None. by rewrite map_lookup_filter, Hi.
  - rewrite map_filter_insert_not'; [done | done |]. intros y. by rewrite Hi.
Qed.

(** X10. A committed send is one more unread message for its receiver
    and for nobody else. After a send whose two writes are let through,
    the message store has exactly one record more; the unread count of the
    conversation for the other participant has grown by one; every other
    unread count, of another actor or of another conversation, is as
    before. *)
Theorem send_adds_one_unread uid cid other s b :
  let text := trim (Chat.newMessage s) in
  let add := Firestore.AddMessage
               (Chat.messageFields cid uid (Chat.OtherUser.id other) text) in
  let set := Firestore.SetConversationMerge cid (Chat.summaryFields text) in
  Chat.otherUser s = Some other → text ≠ "" → cid ≠ "" →
  Firestore.faults b (Firestore.log b) add = false →
  Firestore.faults b (Firestore.log b ++ [add]) set = false →
  let '(r, s', b') := Chat.handleSendMessage (Some uid) (Some cid) s b in
  size (Firestore.messages b') = S (size (Firestore.messages b)) ∧
  unread (Firestore.messages b') (Chat.OtherUser.id other) cid
  = S (unread (Firestore.messages b) (Chat.OtherUser.id other) cid) ∧
  ∀ A C, (A, C) ≠ (Chat.OtherUser.id other, cid) →
         unread (Firestore.messages b') A C
         = unread (Firestore.messages b) A C.
Proof.
  intros text add set Ho Ht Hc F1 F2.
  destruct (handleSendMessage_sent (Some uid) (Some cid) s b)
    as (s' & b' & -> & S).
  destruct S as [G | | |]; simplify_eq; subst_lets.
  - exfalso. destruct G as [G | [G | [G | [G | G]]]]; congruence.
  - congruence.
  - congruence.
  - cbn -[fresh]. pose proof (appended_fresh b) as Hfresh. split_and!.
    + by apply map_size_insert_None.
    + rewrite unread_insert_fresh by done. cbn. by rewrite bool_decide_true.
    + intros A C Hne. rewrite unread_insert_fresh by done. cbn.
      rewrite bool_decide_false; [done |]. intros (E1 & E2 & _).
      apply Hne. by rewrite <- E1, <- E2.
Qed.

Lemma send_adds_one_unread_witness :
  let b' := (Chat.handleSendMessage (Some "alice") (Some "c1")
               (typing " see you ") Scenario.backend).2 in
  unread (Firestore.messages b') "bob" "c1" = 2 ∧
  unread (Firestore.messages b') "alice" "c1" = 1.
Proof.
  intros b'.
  pose proof (send_adds_one_unread "alice" "c1"
                {| Chat.OtherUser.id := "bob"; Chat.OtherUser.username := "Bob";
                   Chat.OtherUser.avatarUrl := "" |}
                (typing " see you ") Scenario.backend) as H.
  cbv zeta in H. subst b'.
  destruct (Chat.handleSendMessage _ _ _ _) as [[r s'] b']. cbn [snd].
  destruct H as (_ & H1 & H2); [done | by vm_compute | done | done | done |].
  cbn [Chat.OtherUser.id] in H1, H2. split.
  - rewrite H1. by vm_compute.
  - rewrite H2; [by vm_compute | done].
Defined.

(** X11. The two writes of a send are not one transaction. When the
    append rejects, nothing is stored and the upsert is not issued. When
    the append is let through and the upsert rejects, the message is
    stored all the same while the conversation summary is as before. In
    both cases the page raises the toast of a failed send and keeps the
    draft. *)
Theorem send_is_not_atomic uid cid other s b :
  let text := trim (Chat.newMessage s) in
  let add := Firestore.AddMessage
               (Chat.messageFields cid uid (Chat.OtherUser.id other) text) in
  let set := Firestore.SetConversationMerge cid (Chat.summaryFields text) in
  Chat.otherUser s = Some other → text ≠ "" → cid ≠ "" →
  let '(r, s', b') := Chat.handleSendMessage (Some uid) (Some cid) s b in
  (Firestore.faults b (Firestore.log b) add = true →
   s' = failed s ∧
   Firestore.log b' = Firestore.log b ++ [add] ∧
   Firestore.messages b' = Firestore.messages b ∧
   Firestore.conversations b' = Firestore.conversations b) ∧
  (Firestore.faults b (Firestore.log b) add = false →
   Firestore.faults b (Firestore.log b ++ [add]) set = true →
   s' = failed s ∧
   Firestore.log b' = Firestore.log b ++ [add; set] ∧
   Firestore.conversations b' = Firestore.conversations b ∧
   size (Firestore.messages b') = S (size (Firestore.messages b)) ∧
   ∃ mid d,
     Firestore.messages b !! mid = None ∧
     Firestore.messages b' !! mid = Some d ∧
     Firestore.text d = text ∧ Firestore.conversationId d = cid).
Proof.
  intros text add set Ho Ht Hc.
  destruct (handleSendMessage_sent (Some uid) (Some cid) s b)
    as (s' & b' & -> & S).
  destruct S as [G | | |]; simplify_eq; subst_lets.
  - exfalso. destruct G as [G | [G | [G | [G | G]]]]; congruence.
  - split; [done | congruence].
  - split; [congruence |]. intros _ _. cbn -[fresh].
    pose proof (appended_fresh b) as Hfresh. split_and!; try done.
    + by rewrite <- app_assoc.
    + by apply map_size_insert_None.
    + eexists _, _. split; [exact Hfresh |]. by rewrite lookup_insert_eq.
  - split; congruence.
Qed.

Lemma send_is_not_atomic_witness :
  let out := Chat.handleSendMessage (Some "alice") (Some "c1")
               (typing " see you ") Scenario.readOnly in
  out.1.2 = failed (typing " see you ") ∧
  Firestore.messages out.2 = Firestore.messages Scenario.readOnly.
Proof.
  intros out.
  pose proof (send_is_not_atomic "alice" "c1"
                {| Chat.OtherUser.id := "bob"; Chat.OtherUser.username := "Bob";
                   Chat.OtherUser.avatarUrl := "" |}
                (typing " see you ") Scenario.readOnly) as H.
  cbv zeta in H. subst out.
  destruct (Chat.handleSendMessage _ _ _ _) as [[r s'] b']. cbn [fst snd].
  destruct H as [H _]; [done | by vm_compute | done |].
  by destruct H as (? & _ & ? & _).
Defined.

Lemma sent_done_inv uid cid other s b s' b' :
  sent (Some uid) (Some cid) s b s' b' →
  Chat.otherUser s = Some other →
  trim (Chat.newMessage s) ≠ "" → cid ≠ "" →
  no_faults b →
  s' = cleared s ∧
  b' = upserted cid (Chat.summaryFields (trim (Chat.newMessage s)))
         (appended (Chat.messageFields cid uid (Chat.OtherUser.id other)
                      (trim (Chat.newMessage s))) b).
Proof.
  intros S Ho Ht Hc Hno.
  destruct S as [G | | |]; simplify_eq; subst_lets;
    try (exfalso; rewrite Hno in *; congruence); [| done].
  exfalso. destruct G as [G | [G | [G | [G | G]]]]; congruence.
Qed.

(** X12. What is sent is what the inbox shows. After a send whose writes
    are let through, on a conversation that already had its participants,
    resolving the stored conversation for a participant [viewer] (the
    sender or the receiver) gives an entry whose last message is the
    trimmed draft, whose time is the server's time of the upsert, and
    whose unread count is the count of the store after the send. *)
Theorem sent_text_reaches_inbox uid cid other s b viewer data l s0 :
  let text := trim (Chat.newMessage s) in
  Chat.otherUser s = Some other → text ≠ "" → cid ≠ "" →
  no_faults b →
  Firestore.conversations b !! cid = Some data →
  Firestore.participants data = Some l →
  (∃ id, id ∈ l ∧ id ≠ viewer) →
  let '(r, s', b') := Chat.handleSendMessage (Some uid) (Some cid) s b in
  ∃ d' e b'',
    Firestore.conversations b' !! cid = Some d' ∧
    Messages.resolveConversation viewer (cid, d') s0 b' = (Fulfilled e, s0, b'') ∧
    Messages.id e = cid ∧
    Messages.participants e = l ∧
    Messages.lastMessage e = text ∧
    Messages.lastMessageTime e = Some (S (Firestore.clock b)) ∧
    Messages.unreadCount e = unread (Firestore.messages b') viewer cid.
Proof.
  intros text Ho Ht Hc Hno Hd Hl Hv. subst text.
  destruct (handleSendMessage_sent (Some uid) (Some cid) s b)
    as (s' & b' & -> & Hs).
  destruct (sent_done_inv _ _ _ _ _ _ _ Hs Ho Ht Hc Hno) as [-> Eb].
  clear Hs.
  assert (Firestore.conversations b' !! cid
          = Some (Firestore.merge (S (Firestore.clock b))
                    (Chat.summaryFields (trim (Chat.newMessage s))) data)) as Hd'.
  { rewrite Eb. cbn -[fresh]. by rewrite lookup_insert_eq, Hd. }
  assert (no_faults b') as Hno' by (rewrite Eb; intros h c; apply Hno).
  clear Eb.
  destruct (resolveConversation_resolution viewer
              (cid, Firestore.merge (S (Firestore.clock b))
                      (Chat.summaryFields (trim (Chat.newMessage s))) data) s0 b')
    as (r & issued & b'' & E & R & _ & _).
  destruct (otherParticipant_is_Some viewer l Hv) as [oid Hoid].
  destruct R as [Hp|l' Hp Hn|l' o Hp Hn F|l' o Hp Hn F F'|l' o Hp Hn F F'];
    cbn in Hp; rewrite Hl in Hp; simplify_eq;
    try (exfalso; rewrite Hno' in *; congruence).
  eexists _, _, b''. split; [exact Hd' |]. split; [exact E |].
  split_and!; try done.
  - cbn. by destruct (trim (Chat.newMessage s)).
  - cbn. apply unreadDocs_length.
Qed.

Lemma sent_text_reaches_inbox_witness :
  let b' := (Chat.handleSendMessage (Some "alice") (Some "c1")
               (typing " see you ") Scenario.backend).2 in
  ∃ d' e b'',
    Firestore.conversations b' !! "c1" = Some d' ∧
    Messages.resolveConversation "bob" ("c1", d') Messages.initial b'
    = (Fulfilled e, Messages.initial, b'') ∧
    Messages.lastMessage e = "see you".
Proof.
  intros b'.
  pose proof (sent_text_reaches_inbox "alice" "c1"
                {| Chat.OtherUser.id := "bob"; Chat.OtherUser.username := "Bob";
                   Chat.OtherUser.avatarUrl := "" |}
                (typing " see you ") Scenario.backend "bob" Scenario.c1
                ["alice"; "bob"] Messages.initial) as H.
  cbv zeta in H. subst b'.
  destruct (Chat.handleSendMessage _ _ _ _) as [[r s'] b']. cbn [snd].
  destruct H as (d' & e & b'' & H1 & H2 & _ & _ & H3 & _);
    [done | by vm_compute | done | done | done | done | |].
  { exists "alice". split; [by left | done]. }
  exists d', e, b''. by rewrite H3.
Defined.

(** ** Opening a thread, and sending from it *)

(** X13. Opening a thread only reads. It issues at most two calls, none
    of them a write, and leaves the stores and the clock as they were. On
    the page it touches neither the messages nor the draft, and it raises
    a toast and leaves for the inbox only when the conversation lookup
    answers "absent": a lookup that rejects is logged and otherwise
    silent. *)
Theorem opening_only_reads uid cid s b :
  let '(r, s', b') := Chat.loadConversation uid cid s b in
  same_stores b b' ∧
  (∃ issued,
     Firestore.log b' = Firestore.log b ++ issued ∧
     (1 ≤ length issued ≤ 2)%nat ∧
     Forall (λ c, Firestore.is_write c = false) issued) ∧
  Chat.messages s' = Chat.messages s ∧
  Chat.newMessage s' = Chat.newMessage s ∧
  (Chat.toasts s' = Chat.toasts s ∧ Chat.navigated s' = Chat.navigated s ∨
   s' = left s ∧
   Firestore.faults b (Firestore.log b) (Firestore.GetConversation cid)
     = false ∧
   Firestore.conversations b !! cid = None).
Proof.
  destruct (loadConversation_loaded uid cid s b)
    as (s' & issued & b' & -> & L & S & E).
  split; [done |]. split.
  - exists issued. split; [done |].
    destruct L; cbn [length]; split; try lia; repeat constructor.
  - destruct L; split_and!; try done; auto.
Qed.

(** X14. Without a profile there is no sending. On a page that exposes
    no other participant, a thread opened on a conversation whose other
    participant has no profile record still exposes none; whatever draft
    is then typed, the send button is enabled as soon as the draft has a
    character that is not white space, and yet a send returns at once: no
    call is issued, no toast is raised and the draft stays. *)
Theorem no_profile_no_send uid cid s b data l oid draft :
  Chat.otherUser s = None →
  Firestore.conversations b !! cid = Some data →
  Firestore.participants data = Some l →
  Messages.otherParticipant uid l = Some oid →
  Firestore.users b !! oid = None →
  let '(r1, s1, b1) := Chat.loadConversation uid cid s b in
  let '(r2, s2, b2) := Chat.setNewMessage draft s1 b1 in
  Chat.loading s2 = false ∧
  Chat.otherUser s2 = None ∧
  Chat.sendDisabled s2 = negb (truthy (trim draft)) ∧
  Chat.handleSendMessage (Some uid) (Some cid) s2 b2 = (Fulfilled tt, s2, b2).
Proof.
  intros Ho Hd Hl Hoid Hu.
  destruct (loadConversation_loaded uid cid s b)
    as (s1 & issued & b1 & -> & L & _ & _).
  assert (Chat.loading s1 = false ∧ Chat.otherUser s1 = None) as [Hload Hother].
  { destruct L; simplify_eq; by cbn. }
  unfold Chat.setNewMessage, setState. cbn [Chat.loading Chat.otherUser].
  split_and!; try done.
  unfold Chat.handleSendMessage. cbn [Chat.otherUser]. by rewrite Hother.
Qed.

Lemma no_profile_no_send_witness :
  let s1 := (Chat.loadConversation "alice" "c2" Chat.initial
               Scenario.backend).1.2 in
  let b1 := (Chat.loadConversation "alice" "c2" Chat.initial
               Scenario.backend).2 in
  let s2 := (Chat.setNewMessage "hello" s1 b1).1.2 in
  Chat.sendDisabled s2 = false ∧
  Chat.handleSendMessage (Some "alice") (Some "c2") s2 b1 = (Fulfilled tt, s2, b1).
Proof.
  intros s1 b1 s2.
  pose proof (no_profile_no_send "alice" "c2" Chat.initial Scenario.backend
                Scenario.c2 ["carol"; "alice"] "carol" "hello") as H.
  subst s2 s1 b1.
  destruct (Chat.loadConversation _ _ _ _) as [[r1 s1] b1]. cbn [fst snd].
  unfold Chat.setNewMessage, setState in *. cbn [fst snd].
  by destruct H as (_ & _ & H1 & H2).
Defined.

(** ** Marking stops at the first rejected update *)

Lemma mark_loop_prefix ms (s : Chat.State) b :
  NoDup (map Chat.id ms) →
  ∃ r k b',
    for_of ms (λ msg, updateDoc_messages (Chat.id msg) Chat.readTrue) s b
      = (r, s, b') ∧
    (k ≤ length ms)%nat ∧
    Firestore.log b'
    = Firestore.log b
      ++ map markCall (take (if is_rejected r then S k else k) ms) ∧
    (r = Fulfilled tt → k = length ms) ∧
    (is_rejected r = true → (k < length ms)%nat) ∧
    (∀ i, i ∉ map Chat.id (take k ms) →
          Firestore.messages b' !! i = Firestore.messages b !! i) ∧
    (∀ msg, msg ∈ take k ms →
            ∃ d, Firestore.messages b !! Chat.id msg = Some d ∧
                 Firestore.messages b' !! Chat.id msg = Some (markRead d)).
Proof.
  revert b. induction ms as [|msg ms IH]; intros b Hnd.
  - exists (Fulfilled tt), 0, b. cbn. rewrite app_nil_r.
    split_and!; try done. by intros msg ?%elem_of_nil.
  - apply NoDup_cons in Hnd as [Hnotin Hnd].
    cbn [for_of]. unfold mbind, Async_bind, await. rewrite markCall_cases.
    destruct (Firestore.faults b (Firestore.log b) (markCall msg)) eqn:F.
    { eexists _, 0, _. cbn. split_and!; try done; [lia | lia |].
      by intros msg' ?%elem_of_nil. }
    destruct (Firestore.messages b !! Chat.id msg) as [d|] eqn:Ed.
    2:{ eexists _, 0, _. cbn. split_and!; try done; [lia | lia |].
        by intros msg' ?%elem_of_nil. }
    match goal with
    | |- context [for_of ms _ s ?b1] => destruct (IH b1 Hnd)
        as (r & k & b' & E & Hk & El & Hf & Hr & Hout & Hin)
    end.
    rewrite E. exists r, (S k), b'.
    cbn [Firestore.log Firestore.messages Firestore.with_messages
         Firestore.record] in *.
    assert (Chat.id msg ∉ map Chat.id (take k ms)) as Hnotin'.
    { intros Hi. apply Hnotin.
      apply list_elem_of_In, in_map_iff in Hi as (m' & Em' & Hm').
      apply list_elem_of_In, in_map_iff. exists m'. split; [done |].
      by apply list_elem_of_In, (subseteq_take k), list_elem_of_In. }
    split_and!; try done.
    + cbn [length]. lia.
    + rewrite El. destruct (is_rejected r); cbn; by rewrite <- app_assoc.
    + intros Hful. cbn [length]. by rewrite Hf.
    + intros Hrej. cbn [length]. specialize (Hr Hrej). lia.
    + intros i Hi. cbn [take map] in Hi. apply not_elem_of_cons in Hi as [Hne Hi].
      rewrite (Hout i Hi). by rewrite lookup_insert_ne.
    + intros msg' Hmsg'. cbn [take] in Hmsg'.
      apply elem_of_cons in Hmsg' as [->|Hmsg'].
      * exists d. split; [done |]. rewrite (Hout _ Hnotin').
        by rewrite lookup_insert_eq.
      * destruct (Hin msg' Hmsg') as (d1 & Hd1 & Hd1').
        exists d1. split; [| done]. rewrite lookup_insert_ne in Hd1; [done |].
        intros Heq. apply Hnotin'. rewrite Heq.
        by apply list_elem_of_In, in_map, list_elem_of_In.
Qed.

Lemma unreadMessages_ids_NoDup uid snapshot :
  NoDup snapshot.*1 →
  NoDup (map Chat.id (Chat.unreadMessages uid (map Chat.asMessage snapshot))).
Proof.
  unfold Chat.unreadMessages. induction snapshot as [|d snapshot IH]; intros Hnd.
  - constructor.
  - cbn in Hnd. apply NoDup_cons in Hnd as [Hnotin Hnd].
    cbn [map]. rewrite filter_cons. case_decide; [| by apply IH].
    cbn [map]. apply NoDup_cons. split; [| by apply IH].
    intros Hin. apply Hnotin.
    apply list_elem_of_In, in_map_iff in Hin as (m & Em & Hm).
    apply list_elem_of_In, list_elem_of_filter in Hm as [_ Hm].
    apply list_elem_of_In, in_map_iff in Hm as (d' & <- & Hd').
    cbn in Em. rewrite <- Em. apply list_elem_of_fmap. exists d'.
    split; [done | by apply list_elem_of_In].
Qed.

(** X15. Marking is an ordered loop that stops at the first update that
    rejects. On a snapshot with one document per identifier, let the
    unread messages addressed to the actor be listed in snapshot order.
    Some number [k] of them are marked: each of the first [k] is stored
    with its read flag set and its other fields as before; the message
    after them, if the handler was rejected, is the one whose update
    rejected; that message, every later one and every message outside the
    list are stored exactly as before. The handler runs to its end when
    [k] is the whole list. *)
Theorem marking_stops_at_rejection uid snapshot s b :
  NoDup snapshot.*1 →
  let unreadList := Chat.unreadMessages uid (map Chat.asMessage snapshot) in
  let '(r, s', b') := Chat.onMessagesSnapshot uid snapshot s b in
  ∃ k,
    (k ≤ length unreadList)%nat ∧
    Firestore.log b'
    = Firestore.log b
      ++ map markCall (take (if is_rejected r then S k else k) unreadList) ∧
    (r = Fulfilled tt → k = length unreadList) ∧
    (is_rejected r = true → (k < length unreadList)%nat) ∧
    (∀ msg, msg ∈ take k unreadList →
            ∃ d, Firestore.messages b !! Chat.id msg = Some d ∧
                 Firestore.messages b' !! Chat.id msg = Some (markRead d)) ∧
    (∀ msg, msg ∈ drop k unreadList →
            Firestore.messages b' !! Chat.id msg
            = Firestore.messages b !! Chat.id msg) ∧
    (∀ i, i ∉ map Chat.id unreadList →
          Firestore.messages b' !! i = Firestore.messages b !! i).
Proof.
  intros Hnd unreadList.
  pose proof (unreadMessages_ids_NoDup uid snapshot Hnd) as Hnd'.
  fold unreadList in Hnd'.
  unfold Chat.onMessagesSnapshot, Chat.setMessages. async_unfold.
  fold unreadList.
  destruct (mark_loop_prefix unreadList
              (holding s (map Chat.asMessage snapshot)) b Hnd')
    as (r & k & b' & E & Hk & El & Hf & Hr & Hout & Hin).
  unfold holding in E. rewrite E.
  exists k. split_and!; try done.
  - intros msg Hmsg. apply Hout. intros Hi.
    rewrite <- (take_drop k unreadList), map_app in Hnd'.
    apply NoDup_app in Hnd' as (_ & Hdisj & _).
    apply (Hdisj _ Hi). by apply list_elem_of_In, in_map, list_elem_of_In.
  - intros i Hi. apply Hout. intros Hi'. apply Hi.
    apply list_elem_of_In, in_map_iff in Hi' as (m & Em & Hm).
    apply list_elem_of_In, in_map_iff. exists m. split; [done |].
    by apply list_elem_of_In, (subseteq_take k), list_elem_of_In.
Qed.

Lemma marking_stops_at_rejection_witness :
  let out := Chat.onMessagesSnapshot "alice" longThread Chat.initial
               lastUpdateDown in
  is_rejected out.1.1 = true ∧
  Firestore.messages out.2 !! "m1" = Some (markRead Scenario.m1) ∧
  Firestore.messages out.2 !! "m3" = Some m3 ∧
  Firestore.messages out.2 !! "m2" = Some Scenario.m2.
Proof.
  intros out.
  pose proof (marking_stops_at_rejection "alice" longThread Chat.initial
                lastUpdateDown) as H.
  cbv zeta in H. change (Chat.onMessagesSnapshot _ _ _ _) with out in H.
  assert (is_rejected out.1.1 = true) as Hr by (by vm_compute).
  assert (Firestore.messages out.2 !! "m1" = Some (markRead Scenario.m1))
    as H1 by (by vm_compute).
  assert (Firestore.messages out.2 !! "m3" = Some m3) as H3 by (by vm_compute).
  destruct out as [[r s'] b']. cbn [fst snd] in *.
  destruct H as (k & _ & _ & _ & _ & _ & _ & Hout).
  { apply (bool_decide_unpack _). by vm_compute. }
  split_and!; try done.
  rewrite Hout; [by vm_compute |].
  apply (bool_decide_unpack _). by vm_compute.
Defined.

(** ** What the inbox page shows *)

Lemma view_NoMessages `{Host} now s :
  Messages.view now s = Messages.NoMessages ↔
  Messages.loading s = false ∧
  ∀ conv, conv ∈ Messages.conversations s →
          ¬ contains (toLowerCase (Messages.otherUserName conv))
                     (toLowerCase (Messages.searchTerm s)).
Proof.
  unfold Messages.view. destruct (Messages.loading s); [by split; [| intros []] |].
  case_bool_decide as Hlen; split; try done.
  - intros _. split; [done |]. intros conv Hconv Hc.
    apply length_zero_iff_nil in Hlen.
    assert (conv ∈ Messages.filteredConversations s) as Hin.
    { apply list_elem_of_filter. split; [| done].
      by apply Is_true_true, includes_contains. }
    rewrite Hlen in Hin. by apply elem_of_nil in Hin.
  - intros [_ Hnone]. exfalso. apply Hlen.
    apply length_zero_iff_nil, elem_of_nil_inv. intros conv Hconv.
    apply list_elem_of_filter in Hconv as [Hc Hconv].
    apply (Hnone conv Hconv). by apply includes_contains, Is_true_true.
Qed.

Lemma view_Rows `{Host} now s rows :
  Messages.view now s = Messages.Rows rows →
  rows ≠ [] ∧
  map Messages.to rows
  = map (λ conv, "/chat/" +:+ Messages.id conv) (Messages.filteredConversations s).
Proof.
  unfold Messages.view. destruct (Messages.loading s); [done |].
  case_bool_decide as Hlen; [done |]. intros [= <-]. split.
  - intros Hnil. apply Hlen. apply (f_equal length) in Hnil.
    by rewrite length_map in Hnil.
  - by rewrite map_map.
Qed.

Lemma view_off_spinner `{Host} now s :
  Messages.loading s = false → Messages.view now s ≠ Messages.Spinner.
Proof. intros Hl. unfold Messages.view. rewrite Hl. by case_bool_decide. Qed.

(** X16. The spinner of the inbox. A snapshot whose join is fulfilled
    takes the page off its spinner for good: it then shows the "No
    messages yet" card or the rows, and no later snapshot, fulfilled or
    rejected, brings the spinner back. A rejected snapshot changes nothing
    of what is shown, so a page whose first snapshot rejects stays on its
    spinner. Off the spinner, the card is shown exactly when no resolved
    entry has a display name whose lower case contains the lower case of
    the search string, both by the host's [toLowerCase], also when there
    are conversations; otherwise there is one row per retained entry, in
    order, linking to its thread. *)
Theorem inbox_view `{Host} uid snapshot s b now :
  let '(r, s', b') := Messages.onConversationsSnapshot uid snapshot s b in
  (Messages.loading s = false → Messages.view now s' ≠ Messages.Spinner) ∧
  (r = Fulfilled tt → Messages.view now s' ≠ Messages.Spinner) ∧
  (is_rejected r = true → Messages.view now s' = Messages.view now s) ∧
  (Messages.view now s' = Messages.NoMessages ↔
   Messages.loading s' = false ∧
   ∀ conv, conv ∈ Messages.conversations s' →
           ¬ contains (toLowerCase (Messages.otherUserName conv))
                      (toLowerCase (Messages.searchTerm s'))) ∧
  (∀ rows, Messages.view now s' = Messages.Rows rows →
           rows ≠ [] ∧
           map Messages.to rows
           = map (λ conv, "/chat/" +:+ Messages.id conv)
                 (Messages.filteredConversations s')).
Proof.
  destruct (onConversationsSnapshot_cases uid snapshot s b)
    as (issued & b' & _ & _ & _ & [[e ->] | (es & -> & _)]).
  - split_and!; try done;
      [apply view_off_spinner | apply view_NoMessages | apply view_Rows].
  - split_and!; try done;
      [intros _; by apply view_off_spinner | intros _; by apply view_off_spinner
      | apply view_NoMessages | apply view_Rows].
Qed.

Lemma inbox_view_witness :
  let H := Unicode.js Unicode.basic in
  let first := Messages.onConversationsSnapshot "alice" Scenario.inbox
                 Messages.initial Scenario.profileDown in
  let later := Messages.onConversationsSnapshot "alice" Scenario.inbox
                 first.1.2 Scenario.backend in
  let again := Messages.onConversationsSnapshot "alice" Scenario.inbox
                 later.1.2 Scenario.profileDown in
  Messages.view 0%Z first.1.2 = Messages.Spinner ∧
  Messages.view 0%Z later.1.2 ≠ Messages.Spinner ∧
  Messages.view 0%Z again.1.2 = Messages.view 0%Z later.1.2.
Proof.
  intros H first later again.
  pose proof (inbox_view (H := H) "alice" Scenario.inbox Messages.initial
                Scenario.profileDown 0%Z) as H1.
  pose proof (inbox_view (H := H) "alice" Scenario.inbox first.1.2
                Scenario.backend 0%Z) as H2.
  pose proof (inbox_view (H := H) "alice" Scenario.inbox later.1.2
                Scenario.profileDown 0%Z) as H3.
  change (Messages.onConversationsSnapshot "alice" Scenario.inbox
            Messages.initial Scenario.profileDown) with first in H1.
  change (Messages.onConversationsSnapshot "alice" Scenario.inbox
            first.1.2 Scenario.backend) with later in H2.
  change (Messages.onConversationsSnapshot "alice" Scenario.inbox
            later.1.2 Scenario.profileDown) with again in H3.
  assert (is_rejected first.1.1 = true) as R1 by (by vm_compute).
  assert (later.1.1 = Fulfilled tt) as R2 by (by vm_compute).
  assert (is_rejected again.1.1 = true) as R3 by (by vm_compute).
  destruct first as [[r1 s1] b1], later as [[r2 s2] b2], again as [[r3 s3] b3].
  cbn [fst snd] in *.
  destruct H1 as (_ & _ & H1 & _), H2 as (_ & H2 & _), H3 as (_ & _ & H3 & _).
  split_and!; [by rewrite H1 | by apply H2 | by apply H3].
Defined.

(** ** A sent message in the thread *)

(** X17. A message committed by a send, as a thread shows it: it is
    stored under a fresh identifier with the trimmed draft as its text and
    unread; it is rendered as the viewer's own message for the sender and
    for no other viewer, signed in or not; the thread handler of its
    receiver selects it for marking, and the handler of its sender does
    not, unless the sender wrote to themselves. *)
Theorem sent_message_in_thread uid cid other s b :
  Chat.otherUser s = Some other →
  trim (Chat.newMessage s) ≠ "" → cid ≠ "" →
  no_faults b →
  let '(r, s', b') := Chat.handleSendMessage (Some uid) (Some cid) s b in
  ∃ mid d,
    Firestore.messages b !! mid = None ∧
    Firestore.messages b' !! mid = Some d ∧
    let shown := Chat.asMessage (mid, d) in
    Chat.text shown = trim (Chat.newMessage s) ∧
    Chat.read shown = false ∧
    Chat.isOwnMessage (Some uid) shown = true ∧
    (∀ viewer, viewer ≠ uid → Chat.isOwnMessage (Some viewer) shown = false) ∧
    Chat.isOwnMessage None shown = false ∧
    Chat.unreadMessages (Chat.OtherUser.id other) [shown] = [shown] ∧
    (Chat.OtherUser.id other ≠ uid → Chat.unreadMessages uid [shown] = []).
Proof.
  intros Ho Ht Hc Hno.
  destruct (handleSendMessage_sent (Some uid) (Some cid) s b)
    as (s' & b' & -> & Hs).
  destruct (sent_done_inv _ _ _ _ _ _ _ Hs Ho Ht Hc Hno) as [-> ->].
  eexists _, _. split; [apply appended_fresh |].
  split; [cbn -[fresh]; by rewrite lookup_insert_eq |].
  cbv zeta. unfold Chat.isOwnMessage, Chat.unreadMessages.
  cbn -[fresh filter]. split_and!; try done.
  - by apply bool_decide_eq_true_2.
  - intros viewer Hv. apply bool_decide_eq_false_2. by intros [= ->].
  - rewrite filter_cons_True; [done |]. cbn.
    rewrite bool_decide_eq_true_2; done.
  - intros Hne. rewrite filter_cons_False; [done |]. cbn.
    rewrite bool_decide_eq_false_2; [by intros [] | done].
Qed.

Lemma sent_message_in_thread_witness :
  let b' := (Chat.handleSendMessage (Some "alice") (Some "c1")
               (typing " see you ") Scenario.backend).2 in
  ∃ mid d,
    Firestore.messages b' !! mid = Some d ∧
    Chat.text (Chat.asMessage (mid, d)) = "see you" ∧
    Chat.isOwnMessage (Some "alice") (Chat.asMessage (mid, d)) = true ∧
    Chat.isOwnMessage (Some "bob") (Chat.asMessage (mid, d)) = false.
Proof.
  intros b'.
  pose proof (sent_message_in_thread "alice" "c1"
                {| Chat.OtherUser.id := "bob"; Chat.OtherUser.username := "Bob";
                   Chat.OtherUser.avatarUrl := "" |}
                (typing " see you ") Scenario.backend) as H.
  subst b'.
  destruct (Chat.handleSendMessage _ _ _ _) as [[r s'] b']. cbn [snd].
  destruct H as (mid & d & _ & Hd & Ht & _ & Hown & Hother & _);
    [done | by vm_compute | done | done |].
  exists mid, d. split_and!; [done | by rewrite Ht | done | by apply Hother].
Defined.
